(** * GraphExec: the workflow interpreter of [app/core/engine.py] and the
    graph validator of [app/models/schemas.py], embedded in Rocq.

    Python dictionaries are stdpp [gmap]s, exceptions are an explicit
    [result] type threaded through a state-and-exception monad over the
    mutable world of one run, and the [while current:] loop of
    [WorkflowEngine._execute] is a step function iterated over a machine
    state. *)

From Stdlib Require Import ZArith String Ascii List Lia Bool.
From stdpp Require Import base option gmap strings list fin_maps pretty.

Local Open Scope string_scope.
Local Open Scope Z_scope.
Local Open Scope list_scope.

(** ** Python values *)

(** The scalars a decoded JSON configuration holds ([Dict[str, Any]]):
    [None], booleans, integers, strings, and of the floats those with a
    fractional part of one half: [AHalf n] is the float [n + 0.5], so that
    [2.5] is [AHalf 2] and [-0.5] is [AHalf (-1)] (exact in a double for
    [|n| < 2^52]).  Other floats, and lists or dictionaries as
    configuration values, are not modelled. *)
Inductive atom : Type :=
  | ANone
  | ABool (b : bool)
  | AInt (n : Z)
  | AHalf (n : Z)
  | AStr (s : string).

(** A value of the state bag is a scalar or a reference to a mutable list
    object living on the heap; two bindings holding the same reference
    alias the same object. *)
Definition loc := positive.

Inductive value : Type :=
  | VAtom (a : atom)
  | VRef (l : loc).

Coercion VAtom : atom >-> value.

#[global] Instance atom_eq_dec : EqDecision atom.
Proof. solve_decision. Defined.

#[global] Instance value_eq_dec : EqDecision value.
Proof. solve_decision. Defined.

(** Python truthiness ([if x], [x or y], [while x]). *)
Definition truthy (a : atom) : bool :=
  match a with
  | ANone => false
  | ABool b => b
  | AInt n => negb (n =? 0)
  | AHalf _ => true
  | AStr s => negb (String.eqb s "")
  end.

(** [x or y] on scalars. *)
Definition py_or (x y : atom) : atom := if truthy x then x else y.

(** [str(x)], as used by the f-strings of the error messages. *)
Definition py_str (a : atom) : string :=
  match a with
  | ANone => "None"
  | ABool true => "True"
  | ABool false => "False"
  | AInt n => pretty n
  | AHalf n => if 0 <=? n then pretty n +:+ ".5" else "-" +:+ pretty (- n - 1) +:+ ".5"
  | AStr s => s
  end.

(** [type(x).__name__]. *)
Definition type_name (v : value) : string :=
  match v with
  | VAtom ANone => "NoneType"
  | VAtom (ABool _) => "bool"
  | VAtom (AInt _) => "int"
  | VAtom (AHalf _) => "float"
  | VAtom (AStr _) => "str"
  | VRef _ => "list"
  end.

(** [bool] is a subclass of [int]: both compare as integers. *)
Definition as_int (a : atom) : option Z :=
  match a with
  | ABool b => Some (if b then 1 else 0)
  | AInt n => Some n
  | _ => None
  end.

(** Twice the value of a number: an integer for every number modelled. *)
Definition twice (a : atom) : option Z :=
  match a with
  | ABool b => Some (if b then 2 else 0)
  | AInt n => Some (2 * n)
  | AHalf n => Some (2 * n + 1)
  | _ => None
  end.

(** [x == y] between a state value and a configuration scalar.  A list
    never equals a scalar (the target is a scalar here: a list as
    configuration value is not modelled). *)
Definition py_eq (v : value) (t : atom) : bool :=
  match v with
  | VRef _ => false
  | VAtom a =>
      match as_int a, as_int t with
      | Some x, Some y => x =? y
      | _, _ =>
          match a, t with
          | ANone, ANone => true
          | AStr s1, AStr s2 => String.eqb s1 s2
          | AHalf n1, AHalf n2 => n1 =? n2
          | _, _ => false
          end
      end
  end.

(** ** Exceptions *)

Inductive exn_kind : Type :=
  | ValueError        (* the spec's ConfigurationError / ToolNotFound / ValidationError *)
  | TypeError
  | KeyError
  | PydanticError     (* field validation of a pydantic model *)
  | ToolFailure.      (* whatever an external tool raised *)

(** An exception with the text [str(exc)] gives. *)
Record exn : Type := Exn { exn_kind_of : exn_kind; exn_msg : string }.

Inductive result (A : Type) : Type :=
  | Ok (a : A)
  | Raise (e : exn).

Arguments Ok {A} a.
Arguments Raise {A} e.

(** The four ordering operators. *)
Inductive ord_op : Type := OpGt | OpGe | OpLt | OpLe.

Definition ord_op_str (o : ord_op) : string :=
  match o with OpGt => ">" | OpGe => ">=" | OpLt => "<" | OpLe => "<=" end.

Definition ord_Z (o : ord_op) (x y : Z) : bool :=
  match o with
  | OpGt => y <? x
  | OpGe => y <=? x
  | OpLt => x <? y
  | OpLe => x <=? y
  end.

Definition ord_str (o : ord_op) (x y : string) : bool :=
  match o with
  | OpGt => String.ltb y x
  | OpGe => String.leb y x
  | OpLt => String.ltb x y
  | OpLe => String.leb x y
  end.

(** [x > y] and its siblings: numbers with numbers (through their doubles
    when a float is involved), strings with strings (code-point order),
    any other pair of scalars is a [TypeError], and so is a list against a
    scalar. *)
Definition py_ord (o : ord_op) (v : value) (t : atom) : result bool :=
  let unsupported :=
    Raise (Exn TypeError
      ("'" +:+ ord_op_str o +:+ "' not supported between instances of '"
       +:+ type_name v +:+ "' and '" +:+ type_name t +:+ "'")) in
  match v with
  | VRef _ => unsupported
  | VAtom a =>
      match as_int a, as_int t with
      | Some x, Some y => Ok (ord_Z o x y)
      | _, _ =>
          match a, t with
          | AStr s1, AStr s2 => Ok (ord_str o s1 s2)
          | _, _ =>
              match twice a, twice t with
              | Some x, Some y => Ok (ord_Z o x y)
              | _, _ => unsupported
              end
          end
      end
  end.

Definition is_none (v : value) : bool :=
  match v with VAtom ANone => true | _ => false end.

(** [value is not None and target is not None and value <o> target]. *)
Definition guarded_ord (o : ord_op) (v : value) (t : atom) : result bool :=
  if is_none v then Ok false
  else if is_none t then Ok false
  else py_ord o v t.

(** [WorkflowEngine._compare]. *)
Definition _compare (v : value) (op : atom) (target : atom) : result bool :=
  if decide (op = AStr "==") then Ok (py_eq v target)
  else if decide (op = AStr "!=") then Ok (negb (py_eq v target))
  else if decide (op = AStr ">") then guarded_ord OpGt v target
  else if decide (op = AStr ">=") then guarded_ord OpGe v target
  else if decide (op = AStr "<") then guarded_ord OpLt v target
  else if decide (op = AStr "<=") then guarded_ord OpLe v target
  else Raise (Exn ValueError ("Unsupported operator '" +:+ py_str op +:+ "'")).

(** The operators [_compare] knows. *)
Definition operators : list atom :=
  [AStr "=="; AStr "!="; AStr ">"; AStr ">="; AStr "<"; AStr "<="].

(** ** The graph model ([app/models/schemas.py]) *)

Inductive NodeType : Type := tool | conditional | loop.

#[global] Instance NodeType_eq_dec : EqDecision NodeType.
Proof. solve_decision. Defined.

Record NodeDefinition : Type := {
  name : string;
  type : NodeType;
  next : option string;
  config : gmap string atom;
}.

Record GraphDefinition : Type := {
  graph_id : string;
  start_at : string;
  nodes : list NodeDefinition;
}.

(** [config.get(key)] and [config.get(key, default)].  A key bound to
    [None] is returned as [None]: the default only replaces a missing key. *)
Definition cfg_get (c : gmap string atom) (key : string) : atom :=
  default ANone (c !! key).

Definition cfg_get_default (c : gmap string atom) (key : string) (d : atom) : atom :=
  default d (c !! key).

(** An [Optional[str]] field read as a Python value. *)
Definition of_optional (o : option string) : atom :=
  match o with Some s => AStr s | None => ANone end.

(** [{n.name for n in self.nodes}]: a set, so repeated names collapse. *)
Definition node_names (ns : list NodeDefinition) : gset string :=
  list_to_set (name <$> ns).

(** [target in node_names] for a scalar target: only a string can be a
    member of a set of strings.  (An unhashable target, a list or a
    dictionary, would raise [TypeError] here; such configuration values
    are not modelled.) *)
Definition in_names (names : gset string) (target : atom) : bool :=
  match target with
  | AStr s => bool_decide (s ∈ names)
  | _ => false
  end.

(** [target and target not in node_names]. *)
Definition dangling (names : gset string) (target : atom) : bool :=
  truthy target && negb (in_names names target).

(** [for key in (...): target = node.config.get(key); if target and
    target not in node_names: raise ValueError(...)]. *)
Fixpoint check_refs (names : gset string) (kind : string) (n : NodeDefinition)
    (keys : list string) : result unit :=
  match keys with
  | [] => Ok ()
  | key :: rest =>
      let target := cfg_get (config n) key in
      if dangling names target then
        Raise (Exn ValueError
          (kind +:+ " node '" +:+ name n +:+ "' references unknown node '"
           +:+ py_str target +:+ "'"))
      else check_refs names kind n rest
  end.

(** The cross-references the validator and the engine read for a node of
    each type. *)
Definition ref_keys (t : NodeType) : list string :=
  match t with
  | tool => []
  | conditional => ["on_true"; "on_false"]
  | loop => ["body"; "after"]
  end.

Definition ref_kind (t : NodeType) : string :=
  match t with
  | tool => ""
  | conditional => "Conditional"
  | loop => "Loop"
  end.

(** The body of [for node in self.nodes] in [validate_graph]. *)
Definition validate_node (names : gset string) (n : NodeDefinition) : result unit :=
  if dangling names (of_optional (next n)) then
    Raise (Exn ValueError
      ("Node '" +:+ name n +:+ "' references unknown next node '"
       +:+ py_str (of_optional (next n)) +:+ "'"))
  else check_refs names (ref_kind (type n)) n (ref_keys (type n)).

Fixpoint validate_nodes (names : gset string) (ns : list NodeDefinition) : result unit :=
  match ns with
  | [] => Ok ()
  | n :: rest =>
      match validate_node names n with
      | Ok _ => validate_nodes names rest
      | Raise e => Raise e
      end
  end.

(** [GraphDefinition.validate_graph].  The [ValueError] it raises is what
    pydantic reports as the validation error of the definition. *)
Definition validate_graph (g : GraphDefinition) : result GraphDefinition :=
  let names := node_names (nodes g) in
  if bool_decide (start_at g ∈ names) then
    match validate_nodes names (nodes g) with
    | Ok _ => Ok g
    | Raise e => Raise e
    end
  else Raise (Exn ValueError ("start_at node '" +:+ start_at g +:+ "' is not defined")).

(** ** Run records ([app/models/schemas.py], [app/core/engine.py]) *)

Inductive RunStatus : Type := pending | running | completed | failed.

Inductive Phase : Type := Start | End | Error.

#[global] Instance RunStatus_eq_dec : EqDecision RunStatus.
Proof. solve_decision. Defined.

#[global] Instance Phase_eq_dec : EqDecision Phase.
Proof. solve_decision. Defined.

(** [LogEntry]: [state_snapshot] is the dictionary built by
    [dict(run_state.state)], a copy of the top-level bindings. *)
Record LogEntry : Type := {
  entry_node : string;
  entry_status : Phase;
  detail : option string;
  state_snapshot : gmap string value;
}.

(** The events of [_notify_subscribers], one constructor per value of the
    ["event"] field.  The ["state"] field of the node and completion events
    is the live state dictionary itself and is not copied into the event. *)
Inductive message : Type :=
  | run_started (run_id : string)
  | node_start (node : atom)
  | node_end (node : string)
  | run_completed (run_id : string)
  | run_failed (run_id : string) (error : string).

(** [asyncio.Queue(maxsize)], oldest item first. *)
Record Queue : Type := {
  maxsize : Z;
  items : list message;
}.

(** [Queue.full()]: a queue with [maxsize <= 0] is never full. *)
Definition full (q : Queue) : bool :=
  if maxsize q <=? 0 then false else maxsize q <=? Z.of_nat (length (items q)).

(** [Queue.put_nowait(item)]; [None] stands for [QueueFull]. *)
Definition put_nowait (q : Queue) (m : message) : option Queue :=
  if full q then None
  else Some {| maxsize := maxsize q; items := items q ++ [m] |}.

(** [RunState] (the [task] handle is left out). *)
Record RunState : Type := {
  run_id : string;
  run_graph_id : string;
  state : gmap string value;
  current_node : atom;
  status : RunStatus;
  log : list LogEntry;
  loop_counts : gmap string Z;
  subscribers : list Queue;
}.

(** The mutable list objects the state bag may refer to. *)
Definition Heap := gmap loc (list atom).

(** Everything a run can change: its record, the heap its state values
    point into, and the sequence of events handed to [_notify_subscribers]
    so far (kept for stating ordering properties; no code reads it). *)
Record World : Type := {
  run_state : RunState;
  heap : Heap;
  published : list message;
}.

(** ** The state-and-exception monad of a run *)

(** A computation reads and changes the world and either returns a value or
    raises; what it changed before raising stays changed. *)
Definition M (A : Type) : Type := World → result A * World.

#[global] Instance M_ret : MRet M := λ A a w, (Ok a, w).

#[global] Instance M_bind : MBind M := λ A B f m w,
  match m w with
  | (Ok a, w') => f a w'
  | (Raise e, w') => (Raise e, w')
  end.

Definition raise {A : Type} (e : exn) : M A := λ w, (Raise e, w).

(** Lift a fallible pure computation. *)
Definition lift_result {A : Type} (r : result A) : M A := λ w, (r, w).

Definition get_run : M RunState := λ w, (Ok (run_state w), w).

(** Replace the run record. *)
Definition put_run (rs : RunState) : M unit := λ w,
  (Ok (), {| run_state := rs; heap := heap w; published := published w |}).

(** Field assignments on [run_state]. *)
Definition with_status (s : RunStatus) (rs : RunState) : RunState :=
  {| run_id := run_id rs; run_graph_id := run_graph_id rs; state := state rs;
     current_node := current_node rs; status := s; log := log rs;
     loop_counts := loop_counts rs; subscribers := subscribers rs |}.

Definition with_current_node (c : atom) (rs : RunState) : RunState :=
  {| run_id := run_id rs; run_graph_id := run_graph_id rs; state := state rs;
     current_node := c; status := status rs; log := log rs;
     loop_counts := loop_counts rs; subscribers := subscribers rs |}.

Definition with_state (st : gmap string value) (rs : RunState) : RunState :=
  {| run_id := run_id rs; run_graph_id := run_graph_id rs; state := st;
     current_node := current_node rs; status := status rs; log := log rs;
     loop_counts := loop_counts rs; subscribers := subscribers rs |}.

Definition with_log (l : list LogEntry) (rs : RunState) : RunState :=
  {| run_id := run_id rs; run_graph_id := run_graph_id rs; state := state rs;
     current_node := current_node rs; status := status rs; log := l;
     loop_counts := loop_counts rs; subscribers := subscribers rs |}.

Definition with_loop_counts (c : gmap string Z) (rs : RunState) : RunState :=
  {| run_id := run_id rs; run_graph_id := run_graph_id rs; state := state rs;
     current_node := current_node rs; status := status rs; log := log rs;
     loop_counts := c; subscribers := subscribers rs |}.

Definition with_subscribers (qs : list Queue) (rs : RunState) : RunState :=
  {| run_id := run_id rs; run_graph_id := run_graph_id rs; state := state rs;
     current_node := current_node rs; status := status rs; log := log rs;
     loop_counts := loop_counts rs; subscribers := qs |}.

Definition modify_run (f : RunState → RunState) : M unit := λ w,
  (Ok (), {| run_state := f (run_state w); heap := heap w; published := published w |}).

(** ** Event fan-out *)

(** One iteration of the loop of [_notify_subscribers]:
    [try: queue.put_nowait(message) except asyncio.QueueFull: pass]. *)
Definition offer (m : message) (q : Queue) : Queue :=
  match put_nowait q m with
  | Some q' => q'
  | None => q
  end.

(** [for queue in run_state.subscribers: ...]. *)
Definition notify_queues (qs : list Queue) (m : message) : list Queue :=
  offer m <$> qs.

(** [WorkflowEngine._notify_subscribers]. *)
Definition _notify_subscribers (m : message) : M unit := λ w,
  (Ok (),
   {| run_state := with_subscribers (notify_queues (subscribers (run_state w)) m) (run_state w);
      heap := heap w;
      published := published w ++ [m] |}).

(** [WorkflowEngine.subscribe] on the run record: a fresh queue of capacity
    100 is appended to the subscribers. *)
Definition subscribe (rs : RunState) : RunState :=
  with_subscribers (subscribers rs ++ [{| maxsize := 100; items := [] |}]) rs.

(** ** Tools ([app/tools/registry.py]) *)

(** A tool is handed the live state dictionary: it may rebind keys of it,
    mutate the list objects it refers to, allocate new ones, and then
    return a dictionary, return [None], or raise. *)
Record ToolOutcome : Type := {
  tool_state : gmap string value;
  tool_heap : Heap;
  tool_return : result (option (gmap string value));
}.

Definition Tool : Type := gmap string value → Heap → ToolOutcome.

(** [ToolRegistry.get(name)]: the registry is keyed by strings, so any
    other scalar is simply not found. *)
Definition registry_get (tools : gmap string Tool) (tool_name : atom) : option Tool :=
  match tool_name with
  | AStr s => tools !! s
  | _ => None
  end.

(** [run_state.state.get(key)]. *)
Definition state_get (st : gmap string value) (key : atom) : value :=
  match key with
  | AStr s => default (VAtom ANone) (st !! s)
  | _ => VAtom ANone
  end.

(** [WorkflowEngine._invoke_tool], with [ToolRegistry.invoke] inlined:
    [result or {}] turns [None] into the empty dictionary, and a non-empty
    result is merged by [state.update(result)]. *)
Definition _invoke_tool (tools : gmap string Tool) (tool_name : atom) : M unit := λ w,
  match registry_get tools tool_name with
  | None =>
      (Raise (Exn ValueError ("Tool '" +:+ py_str tool_name +:+ "' is not registered")), w)
  | Some fn =>
      let out := fn (state (run_state w)) (heap w) in
      let w1 := {| run_state := with_state (tool_state out) (run_state w);
                   heap := tool_heap out;
                   published := published w |} in
      match tool_return out with
      | Raise e => (Raise e, w1)
      | Ok r =>
          let result := default ∅ r in
          if decide (result = ∅) then (Ok (), w1)
          else (Ok (),
                {| run_state := with_state (result ∪ tool_state out) (run_state w);
                   heap := tool_heap out;
                   published := published w |})
      end
  end.

(** ** Node dispatch *)

(** [WorkflowEngine._evaluate_conditional]. *)
Definition _evaluate_conditional (node : NodeDefinition) (rs : RunState) : result atom :=
  let key := cfg_get (config node) "key" in
  let op := cfg_get_default (config node) "op" (AStr "==") in
  let target := cfg_get (config node) "value" in
  let on_true := cfg_get (config node) "on_true" in
  let on_false := cfg_get (config node) "on_false" in
  if is_none key then
    Raise (Exn ValueError ("Conditional node '" +:+ name node +:+ "' is missing 'key'"))
  else
    let value := state_get (state rs) key in
    match _compare value op target with
    | Raise e => Raise e
    | Ok passed =>
        Ok (if passed then on_true else py_or on_false (of_optional (next node)))
    end.

(** [WorkflowEngine._evaluate_loop]: the successor, and the run record with
    the iteration count it may have stored. *)
Definition _evaluate_loop (node : NodeDefinition) (rs : RunState) : result atom * RunState :=
  let key := cfg_get (config node) "key" in
  let op := cfg_get_default (config node) "op" (AStr "==") in
  let target := cfg_get (config node) "value" in
  let body := cfg_get (config node) "body" in
  let after := cfg_get (config node) "after" in
  let max_iterations := cfg_get_default (config node) "max_iterations" (AInt 25) in
  if is_none key || is_none body then
    (Raise (Exn ValueError ("Loop node '" +:+ name node +:+ "' requires 'key' and 'body'")), rs)
  else
    let count := default 0 (loop_counts rs !! name node) in
    let value := state_get (state rs) key in
    match _compare value op target with
    | Raise e => (Raise e, rs)
    | Ok continue_loop =>
        if continue_loop then
          match py_ord OpGe (AInt count) max_iterations with
          | Raise e => (Raise e, rs)
          | Ok true => (Ok after, rs)
          | Ok false =>
              (Ok body, with_loop_counts (<[name node := count + 1]> (loop_counts rs)) rs)
          end
        else (Ok (py_or after (of_optional (next node))), rs)
    end.

(** [WorkflowEngine._execute_node].  [NodeType] has exactly three members,
    so the final [raise ValueError("Unsupported node type ...")] of the
    source cannot be reached. *)
Definition _execute_node (tools : gmap string Tool) (node : NodeDefinition) : M atom :=
  match type node with
  | tool =>
      let tool_name := cfg_get (config node) "tool" in
      if truthy tool_name then
        _invoke_tool tools tool_name;;
        mret (of_optional (next node))
      else
        raise (Exn ValueError ("Tool node '" +:+ name node +:+ "' is missing 'tool' in config"))
  | conditional =>
      rs ← get_run;
      lift_result (_evaluate_conditional node rs)
  | loop =>
      rs ← get_run;
      let '(r, rs') := _evaluate_loop node rs in
      put_run rs';;
      lift_result r
  end.

(** ** The interpreter ([WorkflowEngine._execute]) *)

(** [{node.name: node for node in graph.nodes}]: a later node of the same
    name replaces an earlier one. *)
Definition node_lookup (g : GraphDefinition) : gmap string NodeDefinition :=
  foldl (λ lk n, <[name n := n]> lk) ∅ (nodes g).

(** [node_lookup[current]].  The text of the [KeyError] is [repr] of the
    name, written here as the name between apostrophes (exact for names
    without quotes or escapes); it only arises for a graph that was not
    validated. *)
Definition lookup_node (lk : gmap string NodeDefinition) (current : atom)
    : result NodeDefinition :=
  match current with
  | AStr s =>
      match lk !! s with
      | Some n => Ok n
      | None => Raise (Exn KeyError ("'" +:+ s +:+ "'"))
      end
  | _ => Raise (Exn KeyError (py_str current))
  end.

(** [LogEntry(node=..., status=..., detail=..., state_snapshot=dict(state))]:
    pydantic accepts only a string for [node]; the text of its error is
    abridged to one line. *)
Definition new_entry (node : atom) (ph : Phase) (d : option string)
    (st : gmap string value) : result LogEntry :=
  match node with
  | AStr s =>
      Ok {| entry_node := s; entry_status := ph; detail := d; state_snapshot := st |}
  | _ => Raise (Exn PydanticError "node: Input should be a valid string")
  end.

(** [run_state.log.append(LogEntry(node, status, detail, dict(run_state.state)))]. *)
Definition append_log (node : atom) (ph : Phase) (d : option string) : M unit :=
  rs ← get_run;
  entry ← lift_result (new_entry node ph d (state rs));
  modify_run (with_log (log rs ++ [entry])).

(** Lines 88 to 91: the start of a turn of [while current:]. *)
Definition announce (current : atom) : M unit :=
  modify_run (with_current_node current);;
  append_log current Start None;;
  _notify_subscribers (node_start current).

(** Lines 94 to 96: the end of a turn. *)
Definition conclude (node : NodeDefinition) : M unit :=
  append_log (AStr (name node)) End None;;
  _notify_subscribers (node_end (name node)).

(** One turn of [while current:], lines 88 to 96: the value returned is the
    new [current]. *)
Definition visit (g : GraphDefinition) (tools : gmap string Tool) (current : atom) : M atom :=
  announce current;;
  node ← lift_result (lookup_node (node_lookup g) current);
  successor ← _execute_node tools node;
  conclude node;;
  mret successor.

(** Lines 97 to 99, reached when [current] is falsy. *)
Definition finish : M unit :=
  modify_run (with_current_node ANone);;
  modify_run (with_status completed);;
  rs ← get_run;
  _notify_subscribers (run_completed (run_id rs)).

(** The [except Exception as exc] block, lines 101 to 105; it ends by
    raising [exc] again. *)
Definition on_exception (current : atom) (exc : exn) : M unit :=
  modify_run (with_status failed);;
  append_log (py_or current (AStr "unknown")) Error (Some (exn_msg exc));;
  modify_run (with_current_node ANone);;
  rs ← get_run;
  _notify_subscribers (run_failed (run_id rs) (exn_msg exc));;
  raise exc.

(** Where the coroutine stands: inside the loop with the local [current],
    returned normally, or ended by an exception. *)
Inductive Control : Type :=
  | Running (current : atom)
  | Returned
  | Raised (e : exn).

Record Machine : Type := {
  control : Control;
  world : World;
}.

(** Lines 82 to 85. *)
Definition begin (g : GraphDefinition) (w : World) : Machine :=
  let w1 := snd ((modify_run (with_status running);;
                  rs ← get_run;
                  _notify_subscribers (run_started (run_id rs))) w) in
  {| control := Running (AStr (start_at g)); world := w1 |}.

(** The outcome of a block that ends the coroutine. *)
Definition ended (r : result unit * World) : Machine :=
  match r with
  | (Ok _, w) => {| control := Returned; world := w |}
  | (Raise e, w) => {| control := Raised e; world := w |}
  end.

(** One turn of the loop under its [try], or the exit from it. *)
Definition step (g : GraphDefinition) (tools : gmap string Tool) (m : Machine) : Machine :=
  match control m with
  | Running current =>
      if truthy current then
        match visit g tools current (world m) with
        | (Ok successor, w) => {| control := Running successor; world := w |}
        | (Raise exc, w) => ended (on_exception current exc w)
        end
      else ended (finish (world m))
  | Returned => m
  | Raised _ => m
  end.

(** [_execute] cut off after [fuel] turns. *)
Definition _execute (g : GraphDefinition) (tools : gmap string Tool)
    (fuel : nat) (w : World) : Machine :=
  Nat.iter fuel (step g tools) (begin g w).

(** The record [run_graph] creates before it starts the task. *)
Definition new_run (rid : string) (g : GraphDefinition)
    (initial_state : gmap string value) : RunState :=
  {| run_id := rid; run_graph_id := graph_id g; state := initial_state;
     current_node := AStr (start_at g); status := pending; log := [];
     loop_counts := ∅; subscribers := [] |}.

Definition new_world (rid : string) (g : GraphDefinition)
    (initial_state : gmap string value) (h : Heap) : World :=
  {| run_state := new_run rid g initial_state; heap := h; published := [] |}.

(** [run_graph(graph_id, initial_state, wait_for_completion=True)] on a
    registered graph: what [await task] gives the caller once the task has
    ended, [None] while it has not within [fuel] turns. *)
Definition run_graph (g : GraphDefinition) (tools : gmap string Tool) (rid : string)
    (initial_state : gmap string value) (h : Heap) (fuel : nat)
    : option (result string * World) :=
  let m := _execute g tools fuel (new_world rid g initial_state h) in
  match control m with
  | Running _ => None
  | Returned => Some (Ok rid, world m)
  | Raised e => Some (Raise e, world m)
  end.

(** ** The scenario of the doubling loop *)

(** The tool [double]: [x = x * 2]. *)
Definition double : Tool := λ st h,
  match st !! "x" with
  | Some (VAtom (AInt x)) =>
      {| tool_state := st; tool_heap := h;
         tool_return := Ok (Some {["x" := VAtom (AInt (x * 2))]}) |}
  | _ =>
      {| tool_state := st; tool_heap := h;
         tool_return := Raise (Exn TypeError "unsupported operand") |}
  end.

Definition doubling_graph : GraphDefinition :=
  {| graph_id := "doubling"; start_at := "A";
     nodes :=
       [ {| name := "A"; type := tool; next := Some "B";
            config := {["tool" := AStr "double"]} |};
         {| name := "B"; type := conditional; next := None;
            config := <["key" := AStr "x"]> (<["op" := AStr ">="]>
                      (<["value" := AInt 10]> (<["on_true" := ANone]>
                      {["on_false" := AStr "A"]}))) |} ] |}.

Definition doubling_tools : gmap string Tool := {["double" := double]}.

Definition doubling_run (fuel : nat) : Machine :=
  _execute doubling_graph doubling_tools fuel
    (new_world "run-1" doubling_graph {["x" := VAtom (AInt 3)]} ∅).

(** The value bound to [x] in each snapshot of a log. *)
Definition x_trajectory (l : list LogEntry) : list (option value) :=
  (λ e, state_snapshot e !! "x") <$> l.

Definition visits_of (n : string) (l : list LogEntry) : list LogEntry :=
  filter (λ e, entry_node e = n ∧ entry_status e = Start) l.

(** ** Further runs used below *)

(** Two nodes share the name [A]; only the second is ever dispatched. *)
Definition duplicate_graph : GraphDefinition :=
  {| graph_id := "dup"; start_at := "A";
     nodes :=
       [ {| name := "A"; type := tool; next := None;
            config := {["tool" := AStr "first"]} |};
         {| name := "A"; type := tool; next := None;
            config := {["tool" := AStr "second"]} |} ] |}.

(** A tool that appends [2] to the list object bound to [xs], in place, and
    returns [None]: [state["xs"].append(2)]. *)
Definition push : Tool := λ st h,
  match st !! "xs" with
  | Some (VRef l) =>
      match h !! l with
      | Some xs =>
          {| tool_state := st; tool_heap := <[l := xs ++ [AInt 2]]> h;
             tool_return := Ok None |}
      | None =>
          {| tool_state := st; tool_heap := h;
             tool_return := Raise (Exn KeyError "'xs'") |}
      end
  | _ =>
      {| tool_state := st; tool_heap := h;
         tool_return := Raise (Exn KeyError "'xs'") |}
  end.

Definition push_graph : GraphDefinition :=
  {| graph_id := "push"; start_at := "A";
     nodes := [ {| name := "A"; type := tool; next := None;
                   config := {["tool" := AStr "push"]} |} ] |}.

Definition push_tools : gmap string Tool := {["push" := push]}.

(** The run starts with [xs] bound to the list object [[1]]. *)
Definition push_world : World :=
  new_world "run-2" push_graph {["xs" := VRef 1%positive]} {[1%positive := [AInt 1]]}.

(** What a reader of a dictionary sees when following its references
    through the heap. *)
Inductive seen : Type :=
  | SAtom (a : atom)
  | SList (xs : list atom)
  | SDangling.

Definition see (h : Heap) (v : value) : seen :=
  match v with
  | VAtom a => SAtom a
  | VRef l => match h !! l with Some xs => SList xs | None => SDangling end
  end.

Definition view (h : Heap) (b : gmap string value) : gmap string seen :=
  see h <$> b.

(** A loop capped at two iterations whose condition [x < 100] still holds
    when the cap is reached. *)
Definition capped_graph : GraphDefinition :=
  {| graph_id := "capped"; start_at := "L";
     nodes :=
       [ {| name := "L"; type := loop; next := None;
            config := <["key" := AStr "x"]> (<["op" := AStr "<"]>
                      (<["value" := AInt 100]> (<["body" := AStr "A"]>
                      {["max_iterations" := AInt 2]}))) |};
         {| name := "A"; type := tool; next := Some "L";
            config := {["tool" := AStr "double"]} |} ] |}.

Definition capped_world : World :=
  new_world "run-3" capped_graph {["x" := VAtom (AInt 1)]} ∅.

(** A loop that is its own body, with the fractional cap [2.5] and a
    condition that stays true. *)
Definition fractional_graph : GraphDefinition :=
  {| graph_id := "fractional"; start_at := "L";
     nodes :=
       [ {| name := "L"; type := loop; next := None;
            config := <["key" := AStr "go"]> (<["value" := ABool true]>
                      (<["body" := AStr "L"]> {["max_iterations" := AHalf 2]})) |} ] |}.

Definition fractional_world : World :=
  new_world "run-5" fractional_graph {["go" := VAtom (ABool true)]} ∅.

(** A tool node naming a tool nobody registered. *)
Definition missing_tool_graph : GraphDefinition :=
  {| graph_id := "missing"; start_at := "A";
     nodes := [ {| name := "A"; type := tool; next := None;
                   config := {["tool" := AStr "ghost"]} |} ] |}.

Definition missing_tool_world : World :=
  new_world "run-4" missing_tool_graph ∅ ∅.

(** ** Shapes of logs and event sequences *)

(** The events of a sequence of completed visits. *)
Definition visit_events (vs : list string) : list message :=
  vs ≫= λ s, [node_start (AStr s); node_end s].

Definition entry_tag (e : LogEntry) : string * Phase :=
  (entry_node e, entry_status e).

(** The log tags of a sequence of completed visits. *)
Definition visit_tags (vs : list string) : list (string * Phase) :=
  vs ≫= λ s, [(s, Start); (s, End)].

(** A successor the validator lets through: falsy, or the name of a node. *)
Definition resolvable (g : GraphDefinition) (a : atom) : Prop :=
  dangling (node_names (nodes g)) a = false.

(** The first integer at or above a numeric [max_iterations]: the cap
    itself when it is an integer, the next integer when it is fractional. *)
Definition count_limit (a : atom) : option Z :=
  match a with
  | AHalf k => Some (k + 1)
  | _ => as_int a
  end.

(** The bound the loop guard maintains: a stored count belongs to a loop
    node the engine resolves, and is at most the first integer at or above
    its [max_iterations]. *)
Definition counts_bounded (g : GraphDefinition) (rs : RunState) : Prop :=
  ∀ n c, loop_counts rs !! n = Some c →
    ∃ node m, node_lookup g !! n = Some node ∧ type node = loop ∧
      count_limit (cfg_get_default (config node) "max_iterations" (AInt 25)) = Some m ∧
      c ≤ m.

Definition terminal (s : RunStatus) : Prop := s = completed ∨ s = failed.

(** ** The worlds the blocks of [_execute] produce *)

(** The world after lines 88 to 91 for a string [current]. *)
Definition announced (s : string) (w : World) : World :=
  let rs := run_state w in
  let entry := {| entry_node := s; entry_status := Start; detail := None;
                  state_snapshot := state rs |} in
  {| run_state :=
       with_subscribers (notify_queues (subscribers rs) (node_start (AStr s)))
         (with_log (log rs ++ [entry]) (with_current_node (AStr s) rs));
     heap := heap w;
     published := published w ++ [node_start (AStr s)] |}.

(** The world after lines 94 to 96. *)
Definition concluded (node : NodeDefinition) (w : World) : World :=
  let rs := run_state w in
  let entry := {| entry_node := name node; entry_status := End; detail := None;
                  state_snapshot := state rs |} in
  {| run_state :=
       with_subscribers (notify_queues (subscribers rs) (node_end (name node)))
         (with_log (log rs ++ [entry]) rs);
     heap := heap w;
     published := published w ++ [node_end (name node)] |}.

(** The world after lines 97 to 99. *)
Definition finished (w : World) : World :=
  let rs := run_state w in
  {| run_state :=
       with_subscribers (notify_queues (subscribers rs) (run_completed (run_id rs)))
         (with_status completed (with_current_node ANone rs));
     heap := heap w;
     published := published w ++ [run_completed (run_id rs)] |}.

(** The world after the [except] block when [current] is the string [s]. *)
Definition failed_at (s : string) (exc : exn) (w : World) : World :=
  let rs := run_state w in
  let entry := {| entry_node := s; entry_status := Error;
                  detail := Some (exn_msg exc); state_snapshot := state rs |} in
  {| run_state :=
       with_subscribers
         (notify_queues (subscribers rs) (run_failed (run_id rs) (exn_msg exc)))
         (with_current_node ANone (with_log (log rs ++ [entry]) (with_status failed rs)));
     heap := heap w;
     published := published w ++ [run_failed (run_id rs) (exn_msg exc)] |}.

(** What dispatching a node leaves alone: everything of the world except
    the state bag, the heap and the loop counters. *)
Definition untouched (w w' : World) : Prop :=
  run_id (run_state w') = run_id (run_state w) ∧
  status (run_state w') = status (run_state w) ∧
  current_node (run_state w') = current_node (run_state w) ∧
  log (run_state w') = log (run_state w) ∧
  subscribers (run_state w') = subscribers (run_state w) ∧
  published w' = published w.

(** The invariant of a run of [g] with identifier [rid], by where the
    coroutine stands. *)
Definition run_invariant (g : GraphDefinition) (rid : string) (m : Machine) : Prop :=
  let rs := run_state (world m) in
  run_id rs = rid ∧
  match control m with
  | Running current =>
      status rs = running ∧ resolvable g current ∧
      ∃ vs, published (world m) = run_started rid :: visit_events vs ∧
            entry_tag <$> log rs = visit_tags vs
  | Returned =>
      status rs = completed ∧ current_node rs = ANone ∧
      ∃ vs, published (world m) =
              run_started rid :: visit_events vs ++ [run_completed rid] ∧
            entry_tag <$> log rs = visit_tags vs
  | Raised exc =>
      status rs = failed ∧ current_node rs = ANone ∧
      ∃ vs s l0,
        published (world m) =
          run_started rid :: visit_events vs
            ++ [node_start (AStr s); run_failed rid (exn_msg exc)] ∧
        log rs = l0 ++ [{| entry_node := s; entry_status := Error;
                           detail := Some (exn_msg exc);
                           state_snapshot := state rs |}] ∧
        entry_tag <$> l0 = visit_tags vs ++ [(s, Start)]
  end.

(** ** The tool registry ([app/tools/registry.py]) *)

(** [ToolRegistry.register]. *)
Definition register (tools : gmap string Tool) (tool_name : string) (fn : Tool)
    : gmap string Tool :=
  <[tool_name := fn]> tools.

(** [ToolRegistry.invoke]: the state and heap as the call leaves them, and
    the dictionary returned ([result or {}]) or the exception raised. *)
Definition invoke (tools : gmap string Tool) (tool_name : atom)
    (st : gmap string value) (h : Heap)
    : gmap string value * Heap * result (gmap string value) :=
  match registry_get tools tool_name with
  | None =>
      (st, h, Raise (Exn ValueError ("Tool '" +:+ py_str tool_name +:+ "' is not registered")))
  | Some fn =>
      let out := fn st h in
      (tool_state out, tool_heap out,
       match tool_return out with
       | Ok r => Ok (default ∅ r)
       | Raise e => Raise e
       end)
  end.

(** ** Comparable operands *)

(** The pairs of a state value and a scalar target Python orders: numbers
    with numbers and strings with strings. *)
Definition comparable (v : value) (t : atom) : bool :=
  match v with
  | VRef _ => false
  | VAtom a =>
      match twice a, twice t with
      | Some _, Some _ => true
      | _, _ => match a, t with AStr _, AStr _ => true | _, _ => false end
      end
  end.

(** ** The condition of a loop node *)

(** The comparison [_evaluate_loop] makes holds on a state. *)
Definition loop_condition (node : NodeDefinition) (st : gmap string value) : Prop :=
  _compare (state_get st (cfg_get (config node) "key"))
    (cfg_get_default (config node) "op" (AStr "==")) (cfg_get (config node) "value")
    = Ok true.

(** ** Delivery to one subscriber *)

(** A sequence of events offered, one after the other, to a queue nobody
    reads from. *)
Definition deliver (evs : list message) (q : Queue) : Queue :=
  foldl (λ q m, offer m q) q evs.

(** ** The engine's registries ([WorkflowEngine], lines 32 to 79) *)

Module Engine.

(** [RunResponse]. *)
Record RunResponse : Type := {
  resp_run_id : string;
  resp_graph_id : string;
  resp_status : RunStatus;
  resp_state : gmap string value;
  resp_log : list LogEntry;
}.

(** The dictionaries a [WorkflowEngine] owns. *)
Record WorkflowEngine : Type := {
  tools : gmap string Tool;
  graphs : gmap string GraphDefinition;
  _runs : gmap string RunState;
}.

(** [WorkflowEngine()]. *)
Definition empty : WorkflowEngine :=
  {| tools := ∅; graphs := ∅; _runs := ∅ |}.

(** [register_graph]. *)
Definition register_graph (e : WorkflowEngine) (g : GraphDefinition) : WorkflowEngine :=
  {| tools := tools e; graphs := <[graph_id g := g]> (graphs e); _runs := _runs e |}.


Definition with_run (e : WorkflowEngine) (rid : string) (rs : RunState) : WorkflowEngine :=
  {| tools := tools e; graphs := graphs e; _runs := <[rid := rs]> (_runs e) |}.

Section WithRepr.

(** [repr] of a string: [str(KeyError(msg))] is [repr(msg)]. *)
Variable py_repr : string → string.

(** [get_graph]. *)
Definition get_graph (e : WorkflowEngine) (gid : string) : result GraphDefinition :=
  match graphs e !! gid with
  | Some g => Ok g
  | None => Raise (Exn KeyError (py_repr ("Unknown graph_id '" +:+ gid +:+ "'")))
  end.

Definition unknown_run (rid : string) : exn :=
  Exn KeyError (py_repr ("Unknown run_id '" +:+ rid +:+ "'")).

(** [get_run]. *)
Definition get_run (e : WorkflowEngine) (rid : string) : result RunResponse :=
  match _runs e !! rid with
  | Some rs =>
      Ok {| resp_run_id := run_id rs; resp_graph_id := run_graph_id rs;
            resp_status := status rs; resp_state := state rs; resp_log := log rs |}
  | None => Raise (unknown_run rid)
  end.

(** [subscribe]: the queue handed back is the last of the run's
    subscribers. *)
Definition subscribe_run (e : WorkflowEngine) (rid : string) : result WorkflowEngine :=
  match _runs e !! rid with
  | Some rs => Ok (with_run e rid (subscribe rs))
  | None => Raise (unknown_run rid)
  end.


End WithRepr.

End Engine.

(** ** The shipped workflow ([app/workflows/code_review.py]) *)

(** The graph [register_code_review_workflow] registers; [threshold] is
    the ["value"] of the quality gate. *)
Definition code_review_graph (threshold : atom) : GraphDefinition :=
  {| graph_id := "code_review"; start_at := "extract";
     nodes :=
       [ {| name := "extract"; type := tool; next := Some "complexity";
            config := {["tool" := AStr "extract_functions"]} |};
         {| name := "complexity"; type := tool; next := Some "detect";
            config := {["tool" := AStr "check_complexity"]} |};
         {| name := "detect"; type := tool; next := Some "suggest";
            config := {["tool" := AStr "detect_basic_issues"]} |};
         {| name := "suggest"; type := tool; next := Some "quality_gate";
            config := {["tool" := AStr "suggest_improvements"]} |};
         {| name := "quality_gate"; type := conditional; next := None;
            config := <["key" := AStr "quality_score"]> (<["op" := AStr ">="]>
                      (<["value" := threshold]> (<["on_true" := ANone]>
                      {["on_false" := AStr "refine"]}))) |};
         {| name := "refine"; type := tool; next := Some "quality_gate";
            config := {["tool" := AStr "refine_suggestions"]} |} ] |}.

(** The five registrations that precede it, for any five tools. *)
Definition code_review_tools (extract_functions check_complexity detect_basic_issues
    suggest_improvements refine_suggestions : Tool) : gmap string Tool :=
  register (register (register (register (register ∅
    "extract_functions" extract_functions)
    "check_complexity" check_complexity)
    "detect_basic_issues" detect_basic_issues)
    "suggest_improvements" suggest_improvements)
    "refine_suggestions" refine_suggestions.

(** * Verified properties *)

Ltac munfold :=
  unfold mbind, M_bind, mret, M_ret, raise, lift_result, get_run, put_run,
    modify_run, _notify_subscribers in *.

(** ** Comparison *)

Lemma py_eq_none_l (t : atom) : py_eq ANone t = true ↔ t = ANone.
Proof. destruct t; simpl; split; intros; congruence. Qed.

Lemma py_eq_none_r (v : value) : py_eq v ANone = true ↔ v = VAtom ANone.
Proof. destruct v as [[]|]; simpl; split; intros; congruence. Qed.

Lemma compare_ordering_none_l (o : ord_op) (t : atom) :
  _compare ANone (AStr (ord_op_str o)) t = Ok false.
Proof. destruct o; reflexivity. Qed.

Lemma compare_ordering_none_r (o : ord_op) (v : value) :
  _compare v (AStr (ord_op_str o)) ANone = Ok false.
Proof. destruct o, v as [[]|]; reflexivity. Qed.

(** [==] on scalars is equality of integers when both sides are integers or
    booleans, and identity of the values otherwise. *)
Lemma py_eq_int (a b : atom) (x y : Z) :
  as_int a = Some x → as_int b = Some y → (py_eq a b = true ↔ x = y).
Proof. intros Ha Hb. simpl. rewrite Ha, Hb. apply Z.eqb_eq. Qed.

Lemma py_eq_other (a b : atom) :
  as_int a = None ∨ as_int b = None → (py_eq a b = true ↔ a = b).
Proof.
  intros H. destruct a, b; simpl in *; try (destruct H; discriminate);
    try (split; [discriminate | congruence]); try done.
  - rewrite Z.eqb_eq. split; congruence.
  - rewrite String.eqb_eq. split; congruence.
Qed.

(** C2: [==] and [!=] are the equality of the operands and its negation,
    also against [None] (equal to [None] only): integers and booleans are
    equal when they denote the same number, other scalars when they are the
    same value, and a list is never equal to a scalar; every ordering operator
    gives [False], without raising, as soon as one operand is [None]; any
    operator outside the six raises the [ValueError] "Unsupported operator"
    (the spec's ConfigurationError); comparing [None] with [>] against [5]
    gives [False]. *)
Theorem compare_semantics (v : value) (t : atom) :
  _compare v (AStr "==") t = Ok (py_eq v t) ∧
  _compare v (AStr "!=") t = Ok (negb (py_eq v t)) ∧
  (py_eq ANone t = true ↔ t = ANone) ∧
  (py_eq v ANone = true ↔ v = VAtom ANone) ∧
  (∀ a x y, v = VAtom a → as_int a = Some x → as_int t = Some y →
     (py_eq v t = true ↔ x = y)) ∧
  (∀ a, v = VAtom a → as_int a = None ∨ as_int t = None →
     (py_eq v t = true ↔ a = t)) ∧
  (∀ l, v = VRef l → py_eq v t = false) ∧
  (∀ o : ord_op,
     _compare ANone (AStr (ord_op_str o)) t = Ok false ∧
     _compare v (AStr (ord_op_str o)) ANone = Ok false) ∧
  (∀ op : atom, op ∉ operators →
     _compare v op t =
       Raise (Exn ValueError ("Unsupported operator '" +:+ py_str op +:+ "'"))) ∧
  _compare ANone (AStr ">") (AInt 5) = Ok false.
Proof.
  split_and!; try reflexivity.
  - apply py_eq_none_l.
  - apply py_eq_none_r.
  - intros a x y ->. apply py_eq_int.
  - intros a ->. apply py_eq_other.
  - by intros l ->.
  - intros o. split; [apply compare_ordering_none_l | apply compare_ordering_none_r].
  - intros op Hop. unfold _compare, operators in *.
    repeat case_decide; subst; try reflexivity; exfalso; apply Hop; set_solver.
Qed.

Lemma compare_semantics_witness :
  (AStr "contains" ∉ operators) ∧
  _compare (AInt 3) (AStr "contains") (AInt 5) =
    Raise (Exn ValueError "Unsupported operator 'contains'").
Proof.
  assert (H : AStr "contains" ∉ operators).
  { unfold operators. intros Hin. repeat (apply elem_of_cons in Hin as [Hin|Hin]; [discriminate|]).
    by apply elem_of_nil in Hin. }
  split; [exact H|].
  destruct (compare_semantics (AInt 3) (AInt 5)) as (_ & _ & _ & _ & _ & _ & _ & _ & Hop & _).
  exact (Hop (AStr "contains") H).
Defined.

(** ** Event fan-out *)

Lemma offer_spec (m : message) (q : Queue) :
  offer m q =
    if full q then q else {| maxsize := maxsize q; items := items q ++ [m] |}.
Proof. unfold offer, put_nowait. by destruct (full q). Qed.

(** C9: publishing an event always returns normally; it offers the event to
    every registered queue, in order; a full queue is left as it was (the
    event is dropped for it alone) and every queue that is not full gets
    the event appended, whatever the other queues are; nothing else of the
    run changes. *)
Theorem publish_is_best_effort (m : message) (w : World) :
  ∃ w',
    _notify_subscribers m w = (Ok (), w') ∧
    length (subscribers (run_state w')) = length (subscribers (run_state w)) ∧
    (∀ (i : nat) (q : Queue), subscribers (run_state w) !! i = Some q →
       subscribers (run_state w') !! i =
         Some (if full q then q
               else {| maxsize := maxsize q; items := items q ++ [m] |})) ∧
    state (run_state w') = state (run_state w) ∧
    status (run_state w') = status (run_state w) ∧
    log (run_state w') = log (run_state w) ∧
    heap w' = heap w.
Proof.
  eexists. split; [reflexivity|]. simpl. split_and!; try reflexivity.
  - unfold notify_queues. by rewrite length_fmap.
  - intros i q Hq. unfold notify_queues.
    rewrite list_lookup_fmap, Hq. simpl. by rewrite offer_spec.
Qed.

Lemma publish_is_best_effort_witness :
  let full_q := {| maxsize := 1; items := [run_started "r"] |} in
  let free_q := {| maxsize := 100; items := [] |} in
  let w := {| run_state := with_subscribers [full_q; free_q] (new_run "r" doubling_graph ∅);
              heap := ∅; published := [] |} in
  ∃ w', _notify_subscribers (node_end "A") w = (Ok (), w') ∧
        subscribers (run_state w') !! 0%nat = Some full_q ∧
        subscribers (run_state w') !! 1%nat =
          Some {| maxsize := 100; items := [node_end "A"] |}.
Proof.
  intros full_q free_q w.
  destruct (publish_is_best_effort (node_end "A") w) as (w' & Hrun & _ & Hq & _).
  exists w'. split; [exact Hrun|].
  split; [exact (Hq 0%nat full_q eq_refl) | exact (Hq 1%nat free_q eq_refl)].
Defined.

(** ** The loop node *)



(** ** The doubling scenario *)

(** C8: run from [{x: 3}], the graph [A -(double)-> B -(x >= 10 ? end : A)]
    has not ended after four turns and ends at the fifth: it returns
    normally with status [completed] and [x = 12], the snapshots of its log
    show [x] going 3, 6, 12, and node [A] is started exactly twice. *)
Theorem doubling_scenario :
  control (doubling_run 4) = Running ANone ∧
  control (doubling_run 5) = Returned ∧
  status (run_state (world (doubling_run 5))) = completed ∧
  state (run_state (world (doubling_run 5))) !! "x" = Some (VAtom (AInt 12)) ∧
  x_trajectory (log (run_state (world (doubling_run 5)))) =
    (Some ∘ VAtom ∘ AInt) <$> [3; 6; 6; 6; 6; 12; 12; 12] ∧
  entry_tag <$> log (run_state (world (doubling_run 5))) =
    visit_tags ["A"; "B"; "A"; "B"] ∧
  length (visits_of "A" (log (run_state (world (doubling_run 5))))) = 2%nat.
Proof. vm_compute. repeat split. Qed.

(** ** Validation *)

(** C4 (the point where the code departs from it): a definition in which
    two nodes carry the same name is accepted by [validate_graph], and the
    engine then resolves that name to the later node only. *)
Theorem validate_graph_accepts_duplicate_names :
  name <$> nodes duplicate_graph = ["A"; "A"] ∧
  validate_graph duplicate_graph = Ok duplicate_graph ∧
  node_lookup duplicate_graph !! "A" = nodes duplicate_graph !! 1%nat.
Proof. vm_compute. repeat split. Qed.

Lemma check_refs_ok (names : gset string) (kind : string) (n : NodeDefinition)
    (keys : list string) :
  check_refs names kind n keys = Ok () ↔
  Forall (λ key, dangling names (cfg_get (config n) key) = false) keys.
Proof.
  induction keys as [|key rest IH]; simpl.
  - split; [constructor | done].
  - destruct (dangling names (cfg_get (config n) key)) eqn:E.
    + split; [discriminate|]. intros H. inversion H; congruence.
    + rewrite IH. split; [by constructor | by inversion 1].
Qed.

Lemma validate_node_ok (names : gset string) (n : NodeDefinition) :
  validate_node names n = Ok () ↔
  dangling names (of_optional (next n)) = false ∧
  Forall (λ key, dangling names (cfg_get (config n) key) = false) (ref_keys (type n)).
Proof.
  unfold validate_node.
  destruct (dangling names (of_optional (next n))) eqn:E.
  - split; [discriminate | intros [? _]; discriminate].
  - rewrite check_refs_ok. tauto.
Qed.

Lemma validate_nodes_ok (names : gset string) (ns : list NodeDefinition) :
  validate_nodes names ns = Ok () ↔
  Forall (λ n, validate_node names n = Ok ()) ns.
Proof.
  induction ns as [|n rest IH]; simpl.
  - split; [constructor | done].
  - destruct (validate_node names n) as [[]|e] eqn:E.
    + rewrite IH. split; [by constructor | by inversion 1].
    + split; [discriminate|]. inversion 1; congruence.
Qed.

(** What [validate_graph] accepts: a known [start_at] and no dangling
    reference.  Nothing about the names being distinct is required. *)
Lemma validate_graph_accepts_iff (g : GraphDefinition) :
  validate_graph g = Ok g ↔
  start_at g ∈ node_names (nodes g) ∧
  Forall (λ n, validate_node (node_names (nodes g)) n = Ok ()) (nodes g).
Proof.
  unfold validate_graph. rewrite <- validate_nodes_ok.
  case_bool_decide as Hs.
  - destruct (validate_nodes _ _) as [[]|e]; split; try done.
    + intros [_ ?]; discriminate.
  - split; [discriminate | tauto].
Qed.

Lemma validate_graph_result (g g' : GraphDefinition) :
  validate_graph g = Ok g' → g' = g.
Proof.
  unfold validate_graph. case_bool_decide; [|discriminate].
  destruct (validate_nodes _ _); [|discriminate]. congruence.
Qed.

Lemma validate_nodes_rejects (names : gset string) (ns : list NodeDefinition) (e : exn) :
  validate_nodes names ns = Raise e → exn_kind_of e = ValueError.
Proof.
  induction ns as [|n rest IH]; simpl; [discriminate|].
  destruct (validate_node names n) as [[]|e''] eqn:En; [exact IH|].
  intros [= <-]. revert En. unfold validate_node.
  destruct (dangling names (of_optional (next n))); [by intros [= <-]|].
  generalize (ref_keys (type n)). intros keys.
  induction keys as [|k ks IHk]; simpl; [discriminate|].
  destruct (dangling names (cfg_get (config n) k)); [by intros [= <-] | exact IHk].
Qed.

(** Whatever [validate_graph] rejects when the references are scalars, it
    rejects with a [ValueError]. *)
Lemma validate_graph_rejects (g : GraphDefinition) (e : exn) :
  validate_graph g = Raise e → exn_kind_of e = ValueError.
Proof.
  unfold validate_graph. case_bool_decide.
  - destruct (validate_nodes _ _) as [[]|e'] eqn:E; [discriminate|].
    intros [= <-]. by eapply validate_nodes_rejects.
  - by intros [= <-].
Qed.

(** ** Resolving node names *)

Lemma foldl_lookup_Some (ns : list NodeDefinition) (acc : gmap string NodeDefinition)
    (s : string) (n : NodeDefinition) :
  foldl (λ lk n, <[name n := n]> lk) acc ns !! s = Some n →
  acc !! s = Some n ∨ (n ∈ ns ∧ name n = s).
Proof.
  revert acc. induction ns as [|n0 rest IH]; intros acc; simpl; [by left|].
  intros H. apply IH in H as [H | [H1 H2]].
  - destruct (decide (name n0 = s)) as [Heq|Hne].
    + rewrite <- Heq, lookup_insert_eq in H. injection H as <-.
      right. split; [by left | done].
    + rewrite lookup_insert_ne in H by done. by left.
  - right. split; [by right | done].
Qed.

Lemma node_lookup_Some (g : GraphDefinition) (s : string) (n : NodeDefinition) :
  node_lookup g !! s = Some n → n ∈ nodes g ∧ name n = s.
Proof.
  intros H. apply foldl_lookup_Some in H as [H | H]; [|done].
  by rewrite lookup_empty in H.
Qed.

Lemma foldl_lookup_is_Some (ns : list NodeDefinition) (acc : gmap string NodeDefinition)
    (s : string) :
  is_Some (acc !! s) ∨ s ∈ name <$> ns →
  is_Some (foldl (λ lk n, <[name n := n]> lk) acc ns !! s).
Proof.
  revert acc. induction ns as [|n0 rest IH]; intros acc; simpl.
  - intros [H | H]; [done | by apply elem_of_nil in H].
  - intros H. apply IH.
    destruct (decide (name n0 = s)) as [Heq|Hne].
    + left. rewrite <- Heq, lookup_insert_eq. by eexists.
    + rewrite lookup_insert_ne by done.
      destruct H as [H | H]; [by left|].
      apply elem_of_cons in H as [H | H]; [congruence | by right].
Qed.

Lemma node_lookup_is_Some (g : GraphDefinition) (s : string) :
  s ∈ node_names (nodes g) → is_Some (node_lookup g !! s).
Proof.
  intros H. apply foldl_lookup_is_Some. right.
  unfold node_names in H. by apply elem_of_list_to_set in H.
Qed.

Lemma node_in_names (g : GraphDefinition) (n : NodeDefinition) :
  n ∈ nodes g → name n ∈ node_names (nodes g).
Proof.
  intros H. unfold node_names. apply elem_of_list_to_set.
  by apply list_elem_of_fmap_2.
Qed.

(** A resolvable successor that passes [while current:] is the name of a
    node the engine can look up. *)
Lemma resolvable_truthy (g : GraphDefinition) (a : atom) :
  resolvable g a → truthy a = true →
  ∃ s node, a = AStr s ∧ node_lookup g !! s = Some node.
Proof.
  unfold resolvable, dangling. intros H Ht. rewrite Ht in H. simpl in H.
  apply negb_false_iff in H. destruct a as [| | | |s]; simpl in H; try discriminate.
  apply bool_decide_eq_true in H. apply node_lookup_is_Some in H as [node Hn].
  by exists s, node.
Qed.

Lemma resolvable_or (g : GraphDefinition) (a b : atom) :
  resolvable g a → resolvable g b → resolvable g (py_or a b).
Proof. unfold py_or. by destruct (truthy a). Qed.

(** ** The blocks of [_execute] *)

Lemma announce_str (s : string) (w : World) :
  announce (AStr s) w = (Ok (), announced s w).
Proof. reflexivity. Qed.

Lemma conclude_world (node : NodeDefinition) (w : World) :
  conclude node w = (Ok (), concluded node w).
Proof. reflexivity. Qed.

Lemma finish_world (w : World) : finish w = (Ok (), finished w).
Proof. reflexivity. Qed.

Lemma on_exception_str (s : string) (exc : exn) (w : World) :
  truthy (AStr s) = true →
  on_exception (AStr s) exc w = (Raise exc, failed_at s exc w).
Proof.
  intros Ht. unfold on_exception, py_or. rewrite Ht. reflexivity.
Qed.

(** A turn for a name the engine resolves: the start block, the dispatch,
    and on success the end block. *)
Lemma visit_resolved (g : GraphDefinition) (tools : gmap string Tool)
    (s : string) (node : NodeDefinition) (w : World) :
  node_lookup g !! s = Some node →
  visit g tools (AStr s) w =
    match _execute_node tools node (announced s w) with
    | (Ok successor, w2) => (Ok successor, concluded node w2)
    | (Raise exc, w2) => (Raise exc, w2)
    end.
Proof.
  intros Hn. unfold visit.
  unfold mbind at 1, M_bind at 1. rewrite announce_str.
  unfold mbind at 1, M_bind at 1. unfold lift_result at 1, lookup_node. rewrite Hn.
  unfold mbind at 1, M_bind at 1.
  destruct (_execute_node tools node (announced s w)) as [[succ|exc] w2]; [|done].
  unfold mbind, M_bind. by rewrite conclude_world.
Qed.

Lemma invoke_tool_untouched (tools : gmap string Tool) (tool_name : atom)
    (w : World) (r : result unit) (w' : World) :
  _invoke_tool tools tool_name w = (r, w') →
  untouched w w' ∧ loop_counts (run_state w') = loop_counts (run_state w).
Proof.
  unfold _invoke_tool, untouched.
  destruct (registry_get tools tool_name) as [fn|]; [|by intros [= <- <-]].
  destruct (tool_return (fn _ _)) as [ret|exc]; [|by intros [= <- <-]].
  case_decide; by intros [= <- <-].
Qed.

(** When [count >= max_iterations] is false, the count plus one is at most
    the first integer at or above the cap. *)
Lemma cap_not_reached (count : Z) (max_iterations : atom) :
  py_ord OpGe (AInt count) max_iterations = Ok false →
  ∃ m, count_limit max_iterations = Some m ∧ count + 1 ≤ m.
Proof.
  unfold py_ord. destruct max_iterations as [|b|m|k|s]; simpl; try discriminate.
  - intros [= H]. eexists. split; [reflexivity|]. destruct b; lia.
  - intros [= H]. eexists. split; [reflexivity|]. lia.
  - intros [= H]. eexists. split; [reflexivity|]. lia.
Qed.

Lemma evaluate_loop_fields (node : NodeDefinition) (rs : RunState)
    (r : result atom) (rs' : RunState) :
  _evaluate_loop node rs = (r, rs') →
  rs' = rs ∨
  ∃ c, rs' = with_loop_counts (<[name node := c]> (loop_counts rs)) rs ∧
       ∃ m, count_limit (cfg_get_default (config node) "max_iterations" (AInt 25)) = Some m ∧
            c ≤ m.
Proof.
  unfold _evaluate_loop.
  destruct (is_none _ || is_none _); [intros [= <- <-]; by left|].
  destruct (_compare _ _ _) as [[]|exc]; try (intros [= <- <-]; by left).
  destruct (py_ord OpGe _ _) as [[]|exc] eqn:Hord; try (intros [= <- <-]; by left).
  intros [= <- <-]. right. eexists. split; [reflexivity|].
  by apply cap_not_reached.
Qed.

Lemma execute_node_untouched (tools : gmap string Tool) (node : NodeDefinition)
    (w : World) (r : result atom) (w' : World) :
  _execute_node tools node w = (r, w') → untouched w w'.
Proof.
  unfold _execute_node. destruct (type node).
  - destruct (truthy _); [|by intros [= <- <-]].
    unfold mbind, M_bind.
    destruct (_invoke_tool _ _ _) as [[[]|exc] w1] eqn:E;
      apply invoke_tool_untouched in E as [E _]; by intros [= <- <-].
  - munfold. by intros [= <- <-].
  - munfold. destruct (_evaluate_loop node (run_state w)) as [r1 rs1] eqn:E.
    apply evaluate_loop_fields in E as [-> | (c & -> & _)];
      simpl; destruct r1; by intros [= <- <-].
Qed.

(** Dispatch keeps the loop counters within their bounds. *)
Lemma execute_node_counts (g : GraphDefinition) (tools : gmap string Tool)
    (node : NodeDefinition) (w : World) (r : result atom) (w' : World) :
  node_lookup g !! name node = Some node →
  _execute_node tools node w = (r, w') →
  counts_bounded g (run_state w) → counts_bounded g (run_state w').
Proof.
  intros Hn. unfold _execute_node. destruct (type node) eqn:Ht.
  - destruct (truthy _); [|by intros [= <- <-]].
    unfold mbind, M_bind.
    destruct (_invoke_tool _ _ _) as [[[]|exc] w1] eqn:E;
      apply invoke_tool_untouched in E as [_ E]; intros [= <- <-];
      unfold counts_bounded; by rewrite E.
  - munfold. by intros [= <- <-].
  - munfold. destruct (_evaluate_loop node (run_state w)) as [r1 rs1] eqn:E.
    apply evaluate_loop_fields in E as [-> | (c & -> & m & Hm & Hc)];
      simpl; intros Hw Hb.
    + destruct r1; by injection Hw as <- <-.
    + assert (run_state w' =
        with_loop_counts (<[name node := c]> (loop_counts (run_state w))) (run_state w))
        as -> by (destruct r1; by injection Hw as <- <-).
      intros n c'. simpl. destruct (decide (name node = n)) as [<-|Hne].
      * rewrite lookup_insert_eq. intros [= <-]. by exists node, m.
      * rewrite lookup_insert_ne by done. apply Hb.
Qed.

(** In a validated graph the successor a dispatch returns is resolvable. *)
Lemma execute_node_resolvable (g : GraphDefinition) (tools : gmap string Tool)
    (node : NodeDefinition) (w : World) (successor : atom) (w' : World) :
  validate_node (node_names (nodes g)) node = Ok () →
  _execute_node tools node w = (Ok successor, w') →
  resolvable g successor.
Proof.
  intros Hv. apply validate_node_ok in Hv as [Hnext Hrefs].
  unfold _execute_node. destruct (type node) eqn:Ht; simpl in Hrefs.
  - destruct (truthy _); [|discriminate].
    unfold mbind, M_bind. destruct (_invoke_tool _ _ _) as [[[]|exc] w1]; [|discriminate].
    by intros [= <- <-].
  - munfold. unfold _evaluate_conditional.
    destruct (is_none _); [discriminate|].
    destruct (_compare _ _ _) as [passed|exc]; [|discriminate].
    intros [= <- <-]. inversion Hrefs as [|? ? Ht1 Hrest]; subst.
    inversion Hrest as [|? ? Ht2 _]; subst.
    destruct passed; [done | by apply resolvable_or].
  - munfold. unfold _evaluate_loop.
    inversion Hrefs as [|? ? Hb Hrest]; subst.
    inversion Hrest as [|? ? Ha _]; subst.
    destruct (is_none _ || is_none _); [discriminate|].
    destruct (_compare _ _ _) as [[]|exc]; try discriminate.
    + destruct (py_ord OpGe _ _) as [[]|exc]; try discriminate;
        by intros [= <- <-].
    + intros [= <- <-]. by apply resolvable_or.
Qed.

(** ** The invariant of a run *)

Lemma visit_events_snoc (vs : list string) (s : string) :
  visit_events (vs ++ [s]) = visit_events vs ++ [node_start (AStr s); node_end s].
Proof. unfold visit_events. by rewrite bind_app. Qed.

Lemma visit_tags_snoc (vs : list string) (s : string) :
  visit_tags (vs ++ [s]) = visit_tags vs ++ [(s, Start); (s, End)].
Proof. unfold visit_tags. by rewrite bind_app. Qed.

Lemma begin_invariant (g : GraphDefinition) (rid : string)
    (initial_state : gmap string value) (h : Heap) :
  validate_graph g = Ok g →
  run_invariant g rid (begin g (new_world rid g initial_state h)).
Proof.
  intros Hv. apply validate_graph_accepts_iff in Hv as [Hs _].
  unfold run_invariant. simpl. split; [done|]. split; [done|]. split.
  - unfold resolvable, dangling. simpl. rewrite bool_decide_eq_true_2 by done.
    by rewrite andb_false_r.
  - by exists [].
Qed.

Lemma step_invariant (g : GraphDefinition) (tools : gmap string Tool)
    (rid : string) (m : Machine) :
  validate_graph g = Ok g →
  run_invariant g rid m → run_invariant g rid (step g tools m).
Proof.
  intros Hv Hinv. destruct m as [[current| |exc0] w]; [|done|done].
  destruct Hinv as (Hrid & Hst & Hres & vs & Hpub & Hlog). simpl in *.
  unfold step. cbn [control world]. destruct (truthy current) eqn:Ht.
  - destruct (resolvable_truthy g current Hres Ht) as (s & node & -> & Hn).
    rewrite (visit_resolved g tools s node w Hn).
    destruct (node_lookup_Some g s node Hn) as [Hin Hname].
    destruct (_execute_node tools node (announced s w)) as [[successor|exc] w2] eqn:E.
    + pose proof (execute_node_untouched _ _ _ _ _ E) as (U1 & U2 & _ & U4 & _ & U6).
      simpl in U1, U2, U4, U6.
      unfold run_invariant. simpl. split; [congruence|]. split; [congruence|]. split.
      * apply validate_graph_accepts_iff in Hv as [_ Hall].
        rewrite Forall_forall in Hall.
        eapply execute_node_resolvable; [apply Hall, Hin | exact E].
      * exists (vs ++ [s]). rewrite U6, U4, Hpub, Hname. split.
        -- rewrite visit_events_snoc. simpl. by rewrite <- app_assoc.
        -- rewrite !fmap_app, Hlog, visit_tags_snoc. simpl.
           by rewrite <- app_assoc.
    + pose proof (execute_node_untouched _ _ _ _ _ E) as (U1 & U2 & _ & U4 & _ & U6).
      simpl in U1, U2, U4, U6.
      rewrite (on_exception_str s exc w2 Ht).
      unfold run_invariant. simpl. split; [congruence|]. split; [done|]. split; [done|].
      exists vs, s, (log (run_state w2)). rewrite U6, U1, Hpub, Hrid. split.
      * simpl. by rewrite <- app_assoc.
      * split; [done|]. by rewrite U4, fmap_app, Hlog.
  - rewrite finish_world. unfold run_invariant. simpl.
    split; [done|]. split; [done|]. split; [done|].
    exists vs. by rewrite Hpub, Hrid.
Qed.

(** Every state a run of a validated graph reaches satisfies the
    invariant. *)
Lemma execute_invariant (g : GraphDefinition) (tools : gmap string Tool)
    (rid : string) (initial_state : gmap string value) (h : Heap) (fuel : nat) :
  validate_graph g = Ok g →
  run_invariant g rid (_execute g tools fuel (new_world rid g initial_state h)).
Proof.
  intros Hv. unfold _execute. induction fuel as [|k IH]; simpl.
  - by apply begin_invariant.
  - by apply step_invariant.
Qed.

(** Once the coroutine has ended, further turns change nothing. *)
Lemma step_ended (g : GraphDefinition) (tools : gmap string Tool) (m : Machine) :
  (∀ current, control m ≠ Running current) → step g tools m = m.
Proof. intros H. unfold step. destruct (control m) eqn:E; [by destruct (H current) | done..]. Qed.

Lemma execute_ended (g : GraphDefinition) (tools : gmap string Tool)
    (w : World) (fuel k : nat) :
  (∀ current, control (_execute g tools fuel w) ≠ Running current) →
  _execute g tools (k + fuel) w = _execute g tools fuel w.
Proof.
  intros H. unfold _execute in *. induction k as [|k IH]; simpl; [done|].
  rewrite IH. by apply step_ended.
Qed.

(** ** Turns on arbitrary graphs *)

Lemma visit_not_str (g : GraphDefinition) (tools : gmap string Tool)
    (current : atom) (w : World) :
  (∀ s, current ≠ AStr s) →
  visit g tools current w =
    (Raise (Exn PydanticError "node: Input should be a valid string"),
     {| run_state := with_current_node current (run_state w);
        heap := heap w; published := published w |}).
Proof. intros H. destruct current; try reflexivity. by destruct (H s). Qed.

Lemma on_exception_not_str (current : atom) (exc : exn) (w : World) :
  truthy current = true → (∀ s, current ≠ AStr s) →
  on_exception current exc w =
    (Raise (Exn PydanticError "node: Input should be a valid string"),
     {| run_state := with_status failed (run_state w);
        heap := heap w; published := published w |}).
Proof.
  intros Ht H. unfold on_exception, py_or. rewrite Ht.
  destruct current; try reflexivity. by destruct (H s).
Qed.

Lemma visit_unresolved (g : GraphDefinition) (tools : gmap string Tool)
    (s : string) (w : World) :
  node_lookup g !! s = None →
  visit g tools (AStr s) w = (Raise (Exn KeyError ("'" +:+ s +:+ "'")), announced s w).
Proof.
  intros Hn. unfold visit.
  unfold mbind at 1, M_bind at 1. rewrite announce_str.
  unfold mbind at 1, M_bind at 1. unfold lift_result at 1, lookup_node. by rewrite Hn.
Qed.

Lemma atom_str_dec (a : atom) : (∃ s, a = AStr s) ∨ (∀ s, a ≠ AStr s).
Proof. destruct a; [right..|left]; try done. by eexists. Qed.

(** Any turn, on any graph: the log is only appended to, and the loop
    counters stay within their bounds. *)
Lemma step_preserves (g : GraphDefinition) (tools : gmap string Tool) (m : Machine) :
  log (run_state (world m)) `prefix_of` log (run_state (world (step g tools m))) ∧
  (counts_bounded g (run_state (world m)) →
   counts_bounded g (run_state (world (step g tools m)))).
Proof.
  destruct m as [[current| |exc0] w]; [|done|done].
  unfold step. cbn [control world]. destruct (truthy current) eqn:Ht.
  - destruct (atom_str_dec current) as [[s ->] | Hns].
    + destruct (node_lookup g !! s) as [node|] eqn:Hn.
      * rewrite (visit_resolved g tools s node w Hn).
        destruct (node_lookup_Some g s node Hn) as [_ Hname].
        destruct (_execute_node tools node (announced s w)) as [[successor|exc] w2] eqn:E;
          pose proof (execute_node_untouched _ _ _ _ _ E) as (_ & _ & _ & U4 & _ & _);
          pose proof (execute_node_counts g _ _ _ _ _ ltac:(by rewrite Hname) E) as Hc;
          simpl in U4; [|rewrite (on_exception_str s exc w2 Ht)]; simpl;
          (split; [rewrite U4, <- app_assoc; by apply prefix_app_r | exact Hc]).
      * rewrite (visit_unresolved g tools s w Hn), (on_exception_str _ _ _ Ht). simpl.
        split; [rewrite <- app_assoc; by apply prefix_app_r | done].
    + rewrite (visit_not_str g tools current w Hns).
      by rewrite (on_exception_not_str current _ _ Ht Hns).
  - by rewrite finish_world.
Qed.

Lemma execute_log_prefix (g : GraphDefinition) (tools : gmap string Tool)
    (w : World) (fuel k : nat) :
  log (run_state (world (_execute g tools fuel w)))
    `prefix_of` log (run_state (world (_execute g tools (k + fuel) w))).
Proof.
  unfold _execute. induction k as [|k IH]; simpl; [done|].
  etrans; [exact IH|]. apply step_preserves.
Qed.

Lemma execute_counts_bounded (g : GraphDefinition) (tools : gmap string Tool)
    (rid : string) (initial_state : gmap string value) (h : Heap) (fuel : nat) :
  counts_bounded g
    (run_state (world (_execute g tools fuel (new_world rid g initial_state h)))).
Proof.
  unfold _execute. induction fuel as [|k IH]; simpl.
  - intros n c. simpl. by rewrite lookup_empty.
  - by apply step_preserves.
Qed.

(** The guard of [_evaluate_loop] when the cap is reached and the condition
    still holds. *)
Lemma evaluate_loop_capped (node : NodeDefinition) (rs : RunState) (m : Z) :
  cfg_get (config node) "key" ≠ ANone →
  cfg_get (config node) "body" ≠ ANone →
  _compare (state_get (state rs) (cfg_get (config node) "key"))
    (cfg_get_default (config node) "op" (AStr "==")) (cfg_get (config node) "value")
    = Ok true →
  as_int (cfg_get_default (config node) "max_iterations" (AInt 25)) = Some m →
  m ≤ default 0 (loop_counts rs !! name node) →
  _evaluate_loop node rs = (Ok (cfg_get (config node) "after"), rs).
Proof.
  intros Hk Hb Hc Hm Hle. unfold _evaluate_loop.
  assert (is_none (cfg_get (config node) "key") || is_none (cfg_get (config node) "body")
          = false) as ->.
  { destruct (cfg_get (config node) "key"), (cfg_get (config node) "body");
      simpl; congruence. }
  rewrite Hc. unfold py_ord. simpl. rewrite Hm. simpl.
  destruct (m <=? _) eqn:E; [done | lia].
Qed.

(** While the coroutine is inside its loop the status is [running]. *)
Lemma step_running (g : GraphDefinition) (tools : gmap string Tool) (m : Machine)
    (successor : atom) :
  control (step g tools m) = Running successor →
  (∃ current, control m = Running current) ∧
  status (run_state (world (step g tools m))) = status (run_state (world m)).
Proof.
  destruct m as [[current| |exc0] w]; [|done|done].
  unfold step. cbn [control world]. destruct (truthy current) eqn:Ht.
  - destruct (atom_str_dec current) as [[s ->] | Hns].
    + destruct (node_lookup g !! s) as [node|] eqn:Hn.
      * rewrite (visit_resolved g tools s node w Hn).
        destruct (_execute_node tools node (announced s w)) as [[succ|exc] w2] eqn:E.
        -- pose proof (execute_node_untouched _ _ _ _ _ E) as (_ & U2 & _).
           simpl in *. intros _. split; [by eexists | done].
        -- by rewrite (on_exception_str s exc w2 Ht).
      * by rewrite (visit_unresolved g tools s w Hn), (on_exception_str _ _ _ Ht).
    + rewrite (visit_not_str g tools current w Hns).
      by rewrite (on_exception_not_str current _ _ Ht Hns).
  - by rewrite finish_world.
Qed.

Lemma execute_running_status (g : GraphDefinition) (tools : gmap string Tool)
    (w : World) (fuel : nat) (current : atom) :
  control (_execute g tools fuel w) = Running current →
  status (run_state (world (_execute g tools fuel w))) = running.
Proof.
  unfold _execute. revert current. induction fuel as [|k IH]; intros current; simpl.
  - done.
  - intros H. apply step_running in H as [[c Hc] ->]. by eapply IH.
Qed.

(** With distinct names, every node of the graph is the one the engine
    resolves under its name. *)
Lemma node_lookup_unique (g : GraphDefinition) (node : NodeDefinition) :
  NoDup (name <$> nodes g) → node ∈ nodes g →
  node_lookup g !! name node = Some node.
Proof.
  intros Hnd Hin.
  destruct (node_lookup_is_Some g (name node) (node_in_names g node Hin)) as [n' Hn'].
  destruct (node_lookup_Some g _ _ Hn') as [Hin' Hname].
  rewrite Hn'. f_equal. revert Hnd Hin Hin' Hname.
  induction (nodes g) as [|n0 rest IH]; simpl; intros Hnd Hin Hin' Hname.
  - by apply elem_of_nil in Hin.
  - apply NoDup_cons in Hnd as [Hfresh Hnd].
    apply elem_of_cons in Hin as [-> | Hin]; apply elem_of_cons in Hin' as [-> | Hin'].
    + done.
    + destruct Hfresh. rewrite <- Hname. by apply list_elem_of_fmap_2.
    + destruct Hfresh. rewrite Hname. by apply list_elem_of_fmap_2.
    + by apply IH.
Qed.

(** ** The loop guard over a whole run *)

(** The guard of [_evaluate_loop] when [count >= max_iterations] holds and
    the condition still holds. *)
Lemma evaluate_loop_at_cap (node : NodeDefinition) (rs : RunState) :
  cfg_get (config node) "key" ≠ ANone →
  cfg_get (config node) "body" ≠ ANone →
  _compare (state_get (state rs) (cfg_get (config node) "key"))
    (cfg_get_default (config node) "op" (AStr "==")) (cfg_get (config node) "value")
    = Ok true →
  py_ord OpGe (AInt (default 0 (loop_counts rs !! name node)))
    (cfg_get_default (config node) "max_iterations" (AInt 25)) = Ok true →
  _evaluate_loop node rs = (Ok (cfg_get (config node) "after"), rs).
Proof.
  intros Hk Hb Hc Hord. unfold _evaluate_loop.
  assert (is_none (cfg_get (config node) "key") || is_none (cfg_get (config node) "body")
          = false) as ->.
  { destruct (cfg_get (config node) "key"), (cfg_get (config node) "body");
      simpl; congruence. }
  by rewrite Hc, Hord.
Qed.

(** C5 as stated fails: with [max_iterations = 2.5] the guard
    [count >= max_iterations] still lets the count 2 through, so the count
    3 is stored, and [3 > 2.5]. *)
Lemma fractional_cap_is_exceeded :
  let m := _execute fractional_graph ∅ 5 fractional_world in
  validate_graph fractional_graph = Ok fractional_graph ∧
  control m = Returned ∧
  status (run_state (world m)) = completed ∧
  (∃ node, node_lookup fractional_graph !! "L" = Some node ∧
           config node !! "max_iterations" = Some (AHalf 2)) ∧
  loop_counts (run_state (world m)) !! "L" = Some 3 ∧
  _compare (AInt 3) (AStr ">") (AHalf 2) = Ok true.
Proof.
  intros m. split; [vm_compute; reflexivity|].
  split; [vm_compute; reflexivity|]. split; [vm_compute; reflexivity|].
  split; [|split; vm_compute; reflexivity].
  eexists. split; vm_compute; reflexivity.
Qed.

(** C5, amended: in every state a run reaches, a count stored in
    [loop_counts] belongs to a loop node the engine resolves under that
    name and is at most the first integer at or above that node's
    [max_iterations]: at most [max_iterations] itself whenever that is an
    integer, and less than one above it when it is fractional (so, in a
    graph whose names are distinct, this holds of the count stored for any
    loop node of the graph); and a turn on a loop node whose condition
    holds while [count >= max_iterations] moves on to [after], stores
    nothing, and leaves the run [running]: the truncation does not fail
    the run. *)
Theorem loop_count_never_exceeds_cap (g : GraphDefinition) (tools : gmap string Tool)
    (rid : string) (initial_state : gmap string value) (h : Heap) (fuel : nat) :
  let m := _execute g tools fuel (new_world rid g initial_state h) in
  let rs := run_state (world m) in
  counts_bounded g rs ∧
  (∀ (n : string) (c : Z),
     loop_counts rs !! n = Some c →
     ∃ node, node_lookup g !! n = Some node ∧ type node = loop ∧
       (∀ cap, as_int (cfg_get_default (config node) "max_iterations" (AInt 25)) = Some cap →
          c ≤ cap) ∧
       (∀ k, cfg_get_default (config node) "max_iterations" (AInt 25) = AHalf k →
          c ≤ k + 1)) ∧
  (∀ (node : NodeDefinition) (c : Z),
     NoDup (name <$> nodes g) → node ∈ nodes g → type node = loop →
     loop_counts rs !! name node = Some c →
     (∀ cap, as_int (cfg_get_default (config node) "max_iterations" (AInt 25)) = Some cap →
        c ≤ cap) ∧
     (∀ k, cfg_get_default (config node) "max_iterations" (AInt 25) = AHalf k →
        c ≤ k + 1)) ∧
  (∀ (s : string) (node : NodeDefinition),
     control m = Running (AStr s) → s ≠ "" →
     node_lookup g !! s = Some node → type node = loop →
     cfg_get (config node) "key" ≠ ANone →
     cfg_get (config node) "body" ≠ ANone →
     _compare (state_get (state rs) (cfg_get (config node) "key"))
       (cfg_get_default (config node) "op" (AStr "==")) (cfg_get (config node) "value")
       = Ok true →
     py_ord OpGe (AInt (default 0 (loop_counts rs !! s)))
       (cfg_get_default (config node) "max_iterations" (AInt 25)) = Ok true →
     control (step g tools m) = Running (cfg_get (config node) "after") ∧
     status (run_state (world (step g tools m))) = running ∧
     loop_counts (run_state (world (step g tools m))) = loop_counts rs).
Proof.
  intros m rs.
  assert (Hbound : ∀ n c, loop_counts rs !! n = Some c →
    ∃ node, node_lookup g !! n = Some node ∧ type node = loop ∧
      (∀ cap, as_int (cfg_get_default (config node) "max_iterations" (AInt 25)) = Some cap →
         c ≤ cap) ∧
      (∀ k, cfg_get_default (config node) "max_iterations" (AInt 25) = AHalf k →
         c ≤ k + 1)).
  { intros n c Hc.
    destruct (execute_counts_bounded g tools rid initial_state h fuel _ _ Hc)
      as (node & limit & Hn & Hty & Hlimit & Hle).
    exists node. split; [done|]. split; [done|]. split.
    - intros cap Hcap.
      destruct (cfg_get_default (config node) "max_iterations" (AInt 25));
        simpl in *; try discriminate; congruence.
    - intros k Hk. rewrite Hk in Hlimit. simpl in Hlimit. congruence. }
  split; [apply execute_counts_bounded|]. split; [exact Hbound|]. split.
  { intros node c Hnd Hin Hty Hc.
    destruct (Hbound _ _ Hc) as (node' & Hn' & _ & H1 & H2).
    rewrite (node_lookup_unique g node Hnd Hin) in Hn'. injection Hn' as <-.
    by split. }
  intros s node Hctl Hs Hn Hty Hk Hb Hc Hord.
  pose proof (execute_running_status _ _ _ _ _ Hctl) as Hst. fold m in Hst.
  destruct (node_lookup_Some g s node Hn) as [_ Hname].
  destruct m as [ctl w] eqn:Em. simpl in Hctl, Hst. subst ctl rs.
  unfold step. cbn [control world].
  assert (truthy (AStr s) = true) as ->.
  { simpl. apply negb_true_iff. by apply String.eqb_neq. }
  rewrite (visit_resolved g tools s node w Hn).
  unfold _execute_node. rewrite Hty. munfold.
  rewrite (evaluate_loop_at_cap node (run_state (announced s w)) Hk Hb Hc)
    by (simpl; by rewrite Hname).
  simpl. done.
Qed.

Lemma loop_count_never_exceeds_cap_witness :
  let m := _execute capped_graph doubling_tools 4 capped_world in
  let node := {| name := "L"; type := loop; next := None;
                 config := <["key" := AStr "x"]> (<["op" := AStr "<"]>
                           (<["value" := AInt 100]> (<["body" := AStr "A"]>
                           {["max_iterations" := AInt 2]}))) |} in
  control m = Running (AStr "L") ∧
  loop_counts (run_state (world m)) !! "L" = Some 2 ∧
  state (run_state (world m)) !! "x" = Some (VAtom (AInt 4)) ∧
  2 ≤ 2 ∧
  control (step capped_graph doubling_tools m) = Running ANone ∧
  status (run_state (world (step capped_graph doubling_tools m))) = running.
Proof.
  intros m node.
  assert (Hcount : loop_counts (run_state (world m)) !! "L" = Some 2)
    by (vm_compute; reflexivity).
  split; [vm_compute; reflexivity|].
  split; [exact Hcount|].
  split; [vm_compute; reflexivity|].
  pose proof (loop_count_never_exceeds_cap capped_graph doubling_tools "run-3"
                {["x" := VAtom (AInt 1)]} ∅ 4) as H.
  cbv zeta in H. destruct H as (_ & _ & Hall & Hcap).
  split.
  - refine (proj1 (Hall node 2 _ _ _ Hcount) 2 _).
    + apply NoDup_cons. split; [|apply NoDup_singleton].
      intros Hin. apply list_elem_of_singleton in Hin. discriminate Hin.
    + left.
    + reflexivity.
    + vm_compute. reflexivity.
  - destruct (Hcap "L" node) as (H1 & H2 & _);
      try (vm_compute; reflexivity); try (vm_compute; congruence).
    split; [exact H1 | exact H2].
Defined.

(** ** Failures *)

(** C3: when the dispatch of a node raises, the turn ends the coroutine
    with that same exception, the status is [failed], the last log entry is
    an [error] entry of that node carrying the exception text and a copy of
    the state as the failure left it, and the last event published is
    [run_failed] with the text.  Every run of a validated graph that ended
    by an exception is in that situation, and [run_graph], which awaits the
    task, raises the exception to its caller.  A tool node whose tool is
    not registered raises "Tool '<name>' is not registered", so the error
    entry names the missing tool. *)
Theorem dispatch_failure_is_recorded (g : GraphDefinition) (tools : gmap string Tool)
    (rid : string) (initial_state : gmap string value) (h : Heap) (fuel : nat) :
  validate_graph g = Ok g →
  let m := _execute g tools fuel (new_world rid g initial_state h) in
  let rs := run_state (world m) in
  (∀ (s : string) (node : NodeDefinition) (exc : exn) (w' : World),
     control m = Running (AStr s) → s ≠ "" →
     node_lookup g !! s = Some node →
     _execute_node tools node (announced s (world m)) = (Raise exc, w') →
     let m' := step g tools m in
     let rs' := run_state (world m') in
     control m' = Raised exc ∧
     status rs' = failed ∧
     state rs' = state (run_state w') ∧
     last (log rs') =
       Some {| entry_node := s; entry_status := Error;
               detail := Some (exn_msg exc); state_snapshot := state (run_state w') |} ∧
     last (published (world m')) = Some (run_failed rid (exn_msg exc))) ∧
  (∀ exc : exn, control m = Raised exc →
     status rs = failed ∧
     (∃ s, last (log rs) =
        Some {| entry_node := s; entry_status := Error;
                detail := Some (exn_msg exc); state_snapshot := state rs |}) ∧
     last (published (world m)) = Some (run_failed rid (exn_msg exc)) ∧
     run_graph g tools rid initial_state h fuel = Some (Raise exc, world m)) ∧
  (∀ (s : string) (node : NodeDefinition) (tool_name : atom),
     control m = Running (AStr s) → s ≠ "" →
     node_lookup g !! s = Some node → type node = tool →
     cfg_get (config node) "tool" = tool_name → truthy tool_name = true →
     registry_get tools tool_name = None →
     let exc := Exn ValueError ("Tool '" +:+ py_str tool_name +:+ "' is not registered") in
     control (step g tools m) = Raised exc ∧
     detail <$> last (log (run_state (world (step g tools m)))) = Some (Some (exn_msg exc))).
Proof.
  intros Hv m rs.
  pose proof (execute_invariant g tools rid initial_state h fuel Hv) as Hinv.
  fold m in Hinv.
  assert (Hstep : ∀ s node exc w',
    control m = Running (AStr s) → s ≠ "" → node_lookup g !! s = Some node →
    _execute_node tools node (announced s (world m)) = (Raise exc, w') →
    step g tools m = {| control := Raised exc; world := failed_at s exc w' |} ∧
    run_id (run_state w') = rid).
  { intros s node exc w' Hctl Hs Hn E.
    destruct Hinv as [Hrid _].
    pose proof (execute_node_untouched _ _ _ _ _ E) as (U1 & _). simpl in U1.
    unfold step. rewrite Hctl.
    assert (Ht : truthy (AStr s) = true).
    { simpl. apply negb_true_iff. by apply String.eqb_neq. }
    rewrite Ht, (visit_resolved g tools s node (world m) Hn), E.
    rewrite (on_exception_str s exc w' Ht). split; [done | congruence]. }
  split_and!.
  - intros s node exc w' Hctl Hs Hn E.
    destruct (Hstep s node exc w' Hctl Hs Hn E) as [-> Hrid]. simpl.
    rewrite !last_snoc, Hrid. done.
  - intros exc Hctl. unfold run_invariant in Hinv. rewrite Hctl in Hinv.
    destruct Hinv as (Hrid & Hst & _ & vs & s & l0 & Hpub & Hlog & _).
    fold rs in Hst, Hlog. split_and!.
    + done.
    + exists s. by rewrite Hlog, last_snoc.
    + rewrite Hpub, app_comm_cons.
      change [node_start (AStr s); run_failed rid (exn_msg exc)]
        with ([node_start (AStr s)] ++ [run_failed rid (exn_msg exc)]).
      by rewrite app_assoc, last_snoc.
    + unfold run_graph. fold m. by rewrite Hctl.
  - intros s node tool_name Hctl Hs Hn Hty Hcfg Ht Hreg exc.
    assert (E : _execute_node tools node (announced s (world m))
                = (Raise exc, announced s (world m))).
    { unfold _execute_node. rewrite Hty, Hcfg, Ht.
      unfold mbind, M_bind, _invoke_tool. by rewrite Hreg. }
    destruct (Hstep s node exc _ Hctl Hs Hn E) as [-> _]. simpl.
    by rewrite last_snoc.
Qed.

Lemma dispatch_failure_is_recorded_witness :
  let exc := Exn ValueError "Tool 'ghost' is not registered" in
  let tools : gmap string Tool := ∅ in
  let m0 := _execute missing_tool_graph tools 0 missing_tool_world in
  let m1 := _execute missing_tool_graph tools 1 missing_tool_world in
  validate_graph missing_tool_graph = Ok missing_tool_graph ∧
  control m0 = Running (AStr "A") ∧
  control (step missing_tool_graph tools m0) = Raised exc ∧
  control m1 = Raised exc ∧
  status (run_state (world m1)) = failed ∧
  last (published (world m1)) = Some (run_failed "run-4" (exn_msg exc)) ∧
  run_graph missing_tool_graph tools "run-4" ∅ ∅ 1 = Some (Raise exc, world m1).
Proof.
  intros exc tools m0 m1.
  assert (Hv : validate_graph missing_tool_graph = Ok missing_tool_graph)
    by (vm_compute; reflexivity).
  assert (H0 : control m0 = Running (AStr "A")) by (vm_compute; reflexivity).
  assert (H1 : control m1 = Raised exc) by (vm_compute; reflexivity).
  split; [exact Hv|]. split; [exact H0|].
  pose proof (dispatch_failure_is_recorded missing_tool_graph tools "run-4" ∅ ∅ 0 Hv)
    as (_ & _ & Hmissing).
  pose proof (dispatch_failure_is_recorded missing_tool_graph tools "run-4" ∅ ∅ 1 Hv)
    as (_ & Hended & _).
  destruct (Hmissing "A"
              {| name := "A"; type := tool; next := None;
                 config := {["tool" := AStr "ghost"]} |} (AStr "ghost"))
    as [Hstep _]; try (vm_compute; reflexivity); try (vm_compute; congruence).
  destruct (Hended exc H1) as (Hst & _ & Hpub & Hrun).
  split; [exact Hstep|]. split; [exact H1|]. split; [exact Hst|].
  split; [exact Hpub | exact Hrun].
Defined.

(** ** Ordering of log entries and events *)

(** C7: in every state a run of a validated graph reaches, the events
    published so far are [run_started], then for each completed visit its
    [node_start] immediately followed by its [node_end], and then nothing
    (the loop is still turning), or [run_completed] alone, or the
    [node_start] of the visit that failed followed by [run_failed]; the log
    has the same shape ([start], [end] per completed visit, and [start],
    [error] for a failed one).  So [run_started] comes before every
    [node_start], each [node_start] is answered by exactly one [node_end]
    of the same node unless [run_failed] takes its place, and the terminal
    event is last: once the coroutine has ended, nothing more is logged or
    published. *)
Theorem events_follow_execution_order (g : GraphDefinition) (tools : gmap string Tool)
    (rid : string) (initial_state : gmap string value) (h : Heap) (fuel : nat) :
  validate_graph g = Ok g →
  let m := _execute g tools fuel (new_world rid g initial_state h) in
  (∃ vs : list string,
     match control m with
     | Running _ =>
         published (world m) = run_started rid :: visit_events vs ∧
         entry_tag <$> log (run_state (world m)) = visit_tags vs
     | Returned =>
         published (world m) =
           run_started rid :: visit_events vs ++ [run_completed rid] ∧
         entry_tag <$> log (run_state (world m)) = visit_tags vs
     | Raised exc =>
         ∃ s, published (world m) =
                run_started rid :: visit_events vs
                  ++ [node_start (AStr s); run_failed rid (exn_msg exc)] ∧
              entry_tag <$> log (run_state (world m)) =
                visit_tags vs ++ [(s, Start); (s, Error)]
     end) ∧
  ((∀ current, control m ≠ Running current) →
   ∀ k, _execute g tools (k + fuel) (new_world rid g initial_state h) = m).
Proof.
  intros Hv m.
  pose proof (execute_invariant g tools rid initial_state h fuel Hv) as Hinv.
  fold m in Hinv. split.
  - destruct Hinv as [_ Hinv]. destruct (control m) as [current| |exc].
    + destruct Hinv as (_ & _ & vs & Hpub & Hlog). by exists vs.
    + destruct Hinv as (_ & _ & vs & Hpub & Hlog). by exists vs.
    + destruct Hinv as (_ & _ & vs & s & l0 & Hpub & Hlog & Htags).
      exists vs, s. split; [done|].
      rewrite Hlog, fmap_app, Htags. simpl. by rewrite <- app_assoc.
  - intros Hend k. by apply execute_ended.
Qed.

Lemma events_follow_execution_order_witness :
  validate_graph doubling_graph = Ok doubling_graph ∧
  published (world (doubling_run 5)) =
    run_started "run-1" :: visit_events ["A"; "B"; "A"; "B"] ++ [run_completed "run-1"] ∧
  ∃ vs, published (world (doubling_run 5)) =
          run_started "run-1" :: visit_events vs ++ [run_completed "run-1"] ∧
        entry_tag <$> log (run_state (world (doubling_run 5))) = visit_tags vs.
Proof.
  assert (Hv : validate_graph doubling_graph = Ok doubling_graph)
    by (vm_compute; reflexivity).
  split; [exact Hv|]. split; [vm_compute; reflexivity|].
  pose proof (events_follow_execution_order doubling_graph doubling_tools "run-1"
                {["x" := VAtom (AInt 3)]} ∅ 5 Hv) as [H _].
  change (_execute doubling_graph doubling_tools 5
            (new_world "run-1" doubling_graph {["x" := VAtom (AInt 3)]} ∅))
    with (doubling_run 5) in H.
  assert (Hc : control (doubling_run 5) = Returned) by (vm_compute; reflexivity).
  rewrite Hc in H. exact H.
Defined.

(** ** Terminal states *)

(** C10: in every state a run of a validated graph reaches, a terminal
    status ([completed] or [failed]) comes with [current_node] set to
    [None]; the status is terminal exactly when the coroutine has ended
    (the normal exit and the exception handler each set both together); and
    from then on the run record, its status and its log included, never
    changes again. *)
Theorem terminal_status_is_final (g : GraphDefinition) (tools : gmap string Tool)
    (rid : string) (initial_state : gmap string value) (h : Heap) (fuel : nat) :
  validate_graph g = Ok g →
  let m := _execute g tools fuel (new_world rid g initial_state h) in
  let rs := run_state (world m) in
  (terminal (status rs) → current_node rs = ANone) ∧
  (control m = Returned ↔ status rs = completed) ∧
  ((∃ exc, control m = Raised exc) ↔ status rs = failed) ∧
  (terminal (status rs) →
   ∀ k, _execute g tools (k + fuel) (new_world rid g initial_state h) = m).
Proof.
  intros Hv m rs.
  pose proof (execute_invariant g tools rid initial_state h fuel Hv) as Hinv.
  fold m in Hinv. destruct Hinv as [_ Hinv]. fold rs in Hinv.
  assert (Hend : terminal (status rs) → ∀ current, control m ≠ Running current).
  { intros Ht current Hc. rewrite Hc in Hinv. destruct Hinv as [Hst _].
    destruct Ht as [Ht|Ht]; congruence. }
  split_and!.
  - intros Ht. destruct (control m) as [current| |exc] eqn:Hc.
    + by destruct (Hend Ht current).
    + by destruct Hinv as (_ & ? & _).
    + by destruct Hinv as (_ & ? & _).
  - destruct (control m) as [current| |exc]; destruct Hinv as [Hst _];
      split; try done; congruence.
  - destruct (control m) as [current| |exc]; destruct Hinv as [Hst _]; split;
      try done; try congruence; try (intros [? ?]; done). intros _. by eexists.
  - intros Ht k. apply execute_ended. fold m. by apply Hend.
Qed.

Lemma terminal_status_is_final_witness :
  validate_graph doubling_graph = Ok doubling_graph ∧
  status (run_state (world (doubling_run 5))) = completed ∧
  current_node (run_state (world (doubling_run 5))) = ANone ∧
  doubling_run (3 + 5) = doubling_run 5.
Proof.
  assert (Hv : validate_graph doubling_graph = Ok doubling_graph)
    by (vm_compute; reflexivity).
  assert (Hst : status (run_state (world (doubling_run 5))) = completed)
    by (vm_compute; reflexivity).
  split; [exact Hv|]. split; [exact Hst|].
  pose proof (terminal_status_is_final doubling_graph doubling_tools "run-1"
                {["x" := VAtom (AInt 3)]} ∅ 5 Hv) as (Hnone & _ & _ & Hfinal).
  split.
  - apply Hnone. left. exact Hst.
  - apply (Hfinal (or_introl Hst) 3%nat).
Defined.

(** ** Snapshots *)

(** C6 as stated fails: the start entry of a visit holds the reference to
    the list object bound to [xs]; the tool appends to that object in
    place, and what the entry shows afterwards is no longer the state as it
    was before the dispatch. *)
Lemma snapshot_shares_nested_values :
  let m := _execute push_graph push_tools 1 push_world in
  ∃ e : LogEntry,
    log (run_state (world m)) !! 0%nat = Some e ∧
    entry_status e = Start ∧
    view (heap push_world) (state (run_state push_world)) !! "xs"
      = Some (SList [AInt 1]) ∧
    view (heap (world m)) (state_snapshot e) !! "xs"
      = Some (SList [AInt 1; AInt 2]) ∧
    view (heap (world m)) (state_snapshot e)
      ≠ view (heap push_world) (state (run_state push_world)).
Proof.
  intros m.
  exists {| entry_node := "A"; entry_status := Start; detail := None;
            state_snapshot := {["xs" := VRef 1%positive]} |}.
  split; [vm_compute; reflexivity|]. split; [reflexivity|].
  split; [vm_compute; reflexivity|]. split; [vm_compute; reflexivity|].
  intros H. apply (f_equal (λ b : gmap string seen, b !! "xs")) in H.
  vm_compute in H. discriminate H.
Qed.

(** C6, amended: a snapshot is a copy of the top-level bindings.  A visit
    that completes appends exactly two entries: a [start] entry whose
    snapshot is the state dictionary as it was before the dispatch and an
    [end] entry whose snapshot is the state dictionary after it; and the
    log is only ever appended to, so no later rebinding of a key changes an
    entry already in it.  (The values in a snapshot are the same objects
    the state refers to.) *)
Theorem snapshots_copy_bindings (g : GraphDefinition) (tools : gmap string Tool) :
  (∀ (current successor : atom) (w w' : World),
     visit g tools current w = (Ok successor, w') →
     ∃ (s : string) (node : NodeDefinition),
       current = AStr s ∧ node_lookup g !! s = Some node ∧
       log (run_state w') =
         log (run_state w)
           ++ [ {| entry_node := s; entry_status := Start; detail := None;
                   state_snapshot := state (run_state w) |};
                {| entry_node := name node; entry_status := End; detail := None;
                   state_snapshot := state (run_state w') |} ]) ∧
  (∀ (w : World) (fuel k : nat),
     log (run_state (world (_execute g tools fuel w)))
       `prefix_of` log (run_state (world (_execute g tools (k + fuel) w)))).
Proof.
  split; [|apply execute_log_prefix].
  intros current successor w w' Hvisit.
  destruct (atom_str_dec current) as [[s ->] | Hns].
  - destruct (node_lookup g !! s) as [node|] eqn:Hn.
    + exists s, node. split; [done|]. split; [done|].
      rewrite (visit_resolved g tools s node w Hn) in Hvisit.
      destruct (_execute_node tools node (announced s w)) as [[succ|exc] w2] eqn:E;
        [|discriminate].
      pose proof (execute_node_untouched _ _ _ _ _ E) as (_ & _ & _ & U4 & _).
      injection Hvisit as _ <-. simpl in *. by rewrite U4, <- app_assoc.
    + by rewrite (visit_unresolved g tools s w Hn) in Hvisit.
  - by rewrite (visit_not_str g tools current w Hns) in Hvisit.
Qed.

Lemma snapshots_copy_bindings_witness :
  let w := world (doubling_run 0) in
  let r := visit doubling_graph doubling_tools (AStr "A") w in
  fst r = Ok (AStr "B") ∧
  state_snapshot <$> log (run_state (snd r)) =
    [ {["x" := VAtom (AInt 3)]}; {["x" := VAtom (AInt 6)]} ].
Proof.
  intros w r.
  assert (Hr : r = (Ok (AStr "B"), snd r)) by (vm_compute; reflexivity).
  split; [by rewrite Hr|].
  destruct (proj1 (snapshots_copy_bindings doubling_graph doubling_tools) _ _ _ _ Hr)
    as (s & node & _ & _ & Hlog).
  rewrite Hlog. vm_compute. reflexivity.
Defined.

(** * Further properties of the code *)

(** ** Validation ([GraphDefinition.validate_graph]) *)

(** X1: [validate_graph] hands back the definition it was given, and it accepts
    exactly the definitions whose [start_at] names a node and in which
    [next], and for a conditional node [on_true] and [on_false], for a loop
    node [body] and [after], are each falsy or the name of a node. *)
Theorem validate_graph_accepts_exactly (g : GraphDefinition) :
  (∀ g', validate_graph g = Ok g' → g' = g) ∧
  (validate_graph g = Ok g ↔
   start_at g ∈ node_names (nodes g) ∧
   ∀ n, n ∈ nodes g →
     resolvable g (of_optional (next n)) ∧
     ∀ key, key ∈ ref_keys (type n) → resolvable g (cfg_get (config n) key)).
Proof.
  split; [apply validate_graph_result|].
  rewrite validate_graph_accepts_iff, Forall_forall.
  split; intros [Hs Hn]; (split; [done|]); intros n Hin; specialize (Hn n Hin).
  - apply validate_node_ok in Hn as [H1 H2]. split; [done|].
    by rewrite Forall_forall in H2.
  - apply validate_node_ok. destruct Hn as [H1 H2]. split; [done|].
    by rewrite Forall_forall.
Qed.

Lemma validate_graph_accepts_exactly_witness :
  start_at (code_review_graph (AInt 1)) ∈ node_names (nodes (code_review_graph (AInt 1))).
Proof.
  destruct (validate_graph_accepts_exactly (code_review_graph (AInt 1))) as [_ [H _]].
  apply H. vm_compute. reflexivity.
Defined.

(** X2: The first violation is the one reported: an unknown [start_at], with
    its [ValueError], before anything about the nodes; otherwise what the
    first node, in list order, that has a violation raises; and within a
    node a dangling [next], with its [ValueError], before the references of
    its configuration. *)
Theorem validate_graph_reports_first_violation (g : GraphDefinition) :
  let names := node_names (nodes g) in
  (start_at g ∉ names →
   validate_graph g =
     Raise (Exn ValueError ("start_at node '" +:+ start_at g +:+ "' is not defined"))) ∧
  (∀ pre n post e,
     start_at g ∈ names → nodes g = pre ++ n :: post →
     Forall (λ n', validate_node names n' = Ok ()) pre →
     validate_node names n = Raise e →
     validate_graph g = Raise e) ∧
  (∀ n, dangling names (of_optional (next n)) = true →
     validate_node names n =
       Raise (Exn ValueError
         ("Node '" +:+ name n +:+ "' references unknown next node '"
          +:+ py_str (of_optional (next n)) +:+ "'"))).
Proof.
  intros names. split_and!.
  - intros Hs. unfold validate_graph. fold names. by rewrite bool_decide_eq_false_2.
  - intros pre n post e Hs Hnodes Hpre Hn. unfold validate_graph. fold names.
    rewrite bool_decide_eq_true_2 by done. rewrite Hnodes.
    clear Hnodes. induction Hpre as [|n' pre' Hn' _ IH]; simpl.
    + by rewrite Hn.
    + rewrite Hn'. exact IH.
  - intros n Hd. unfold validate_node. by rewrite Hd.
Qed.

Lemma validate_graph_reports_first_violation_witness :
  let g := {| graph_id := "g"; start_at := "A";
              nodes := [ {| name := "A"; type := tool; next := Some "B"; config := ∅ |};
                         {| name := "C"; type := tool; next := Some "D"; config := ∅ |} ] |} in
  validate_graph g =
    Raise (Exn ValueError "Node 'A' references unknown next node 'B'").
Proof.
  intros g.
  destruct (validate_graph_reports_first_violation g) as (_ & H & _).
  apply (H [] {| name := "A"; type := tool; next := Some "B"; config := ∅ |}
           [ {| name := "C"; type := tool; next := Some "D"; config := ∅ |} ]).
  - vm_compute. reflexivity.
  - reflexivity.
  - constructor.
  - vm_compute. reflexivity.
Defined.

(** ** Resolving names ([node_lookup] of [_execute]) *)

Lemma foldl_lookup_last (ns : list NodeDefinition) (acc : gmap string NodeDefinition)
    (s : string) :
  foldl (λ lk n, <[name n := n]> lk) acc ns !! s =
    match last (filter (λ n, name n = s) ns) with
    | Some n => Some n
    | None => acc !! s
    end.
Proof.
  induction ns as [|n rest IH] using rev_ind; [done|].
  rewrite foldl_app, filter_app. simpl.
  destruct (decide (name n = s)) as [Hn|Hn].
  - rewrite filter_cons_True by done. rewrite filter_nil, last_snoc.
    by rewrite <- Hn, lookup_insert_eq.
  - rewrite filter_cons_False by done. rewrite filter_nil, app_nil_r.
    by rewrite lookup_insert_ne.
Qed.

(** X3: The engine resolves a name to the last node of the list that carries
    it; a name no node carries resolves to nothing. *)
Theorem node_lookup_last_wins (g : GraphDefinition) (s : string) :
  node_lookup g !! s = last (filter (λ n, name n = s) (nodes g)) ∧
  (node_lookup g !! s = None ↔ s ∉ node_names (nodes g)).
Proof.
  assert (H : node_lookup g !! s = last (filter (λ n, name n = s) (nodes g))).
  { unfold node_lookup. rewrite foldl_lookup_last, lookup_empty.
    by destruct (last _). }
  split; [exact H|]. split.
  - intros Hnone Hin. apply node_lookup_is_Some in Hin as [n Hn]. congruence.
  - intros Hnin. destruct (node_lookup g !! s) as [n|] eqn:Hn; [|done].
    destruct (node_lookup_Some g s n Hn) as [Hin <-].
    by destruct Hnin; apply node_in_names.
Qed.

Lemma node_lookup_last_wins_witness :
  node_lookup duplicate_graph !! "B" = None.
Proof.
  apply (proj2 (node_lookup_last_wins duplicate_graph "B")).
  unfold node_names. intros H. apply elem_of_list_to_set in H. simpl in H.
  repeat (apply elem_of_cons in H as [H|H]; [discriminate H|]).
  by apply elem_of_nil in H.
Defined.

(** ** Runs of validated graphs *)

(** X4: In a run of a validated graph every name the loop is about to visit
    resolves to a node of the graph, so [node_lookup[current]] never
    raises; and whenever a turn ends the run by an exception, that
    exception was raised by the dispatch of the node: nothing else in the
    loop fails. *)
Theorem validated_run_resolves_every_node (g : GraphDefinition)
    (tools : gmap string Tool) (rid : string) (initial_state : gmap string value)
    (h : Heap) (fuel : nat) :
  validate_graph g = Ok g →
  let m := _execute g tools fuel (new_world rid g initial_state h) in
  (∀ current, control m = Running current → truthy current = true →
     ∃ s node, current = AStr s ∧
       lookup_node (node_lookup g) current = Ok node ∧
       name node = s ∧ node ∈ nodes g) ∧
  (∀ current exc, control m = Running current →
     control (step g tools m) = Raised exc →
     ∃ s node w', current = AStr s ∧ node_lookup g !! s = Some node ∧
       _execute_node tools node (announced s (world m)) = (Raise exc, w')).
Proof.
  intros Hv m.
  pose proof (execute_invariant g tools rid initial_state h fuel Hv) as Hinv.
  fold m in Hinv. destruct Hinv as [_ Hinv]. split.
  - intros current Hc Ht. rewrite Hc in Hinv. destruct Hinv as (_ & Hres & _).
    destruct (resolvable_truthy g current Hres Ht) as (s & node & -> & Hn).
    destruct (node_lookup_Some g s node Hn) as [Hin Hname].
    exists s, node. simpl. by rewrite Hn.
  - intros current exc Hc. rewrite Hc in Hinv. destruct Hinv as (_ & Hres & _).
    unfold step. rewrite Hc. destruct (truthy current) eqn:Ht.
    + destruct (resolvable_truthy g current Hres Ht) as (s & node & -> & Hn).
      rewrite (visit_resolved g tools s node (world m) Hn).
      destruct (_execute_node tools node (announced s (world m)))
        as [[successor|exc'] w2] eqn:E; [done|].
      rewrite (on_exception_str s exc' w2 Ht). simpl. intros [= ->].
      by exists s, node, w2.
    + by rewrite finish_world.
Qed.

Lemma validated_run_resolves_every_node_witness :
  ∃ s node, AStr "A" = AStr s ∧
    lookup_node (node_lookup doubling_graph) (AStr "A") = Ok node ∧
    name node = s ∧ node ∈ nodes doubling_graph.
Proof.
  apply (proj1 (validated_run_resolves_every_node doubling_graph doubling_tools "run-1"
                  {["x" := VAtom (AInt 3)]} ∅ 0 ltac:(vm_compute; reflexivity))).
  - vm_compute. reflexivity.
  - reflexivity.
Defined.

(** ** The conditional node ([_evaluate_conditional]) *)

(** X5: A conditional node whose [key] is [None] raises the [ValueError]
    "is missing 'key'".  Otherwise a comparison that raises is passed on;
    when the comparison holds the successor is [on_true], also when
    [on_true] is missing, in which case the run ends and [next] is not
    consulted; when it does not hold the successor is [on_false] if truthy
    and [next] otherwise.  Dispatching a conditional node changes nothing
    in the world. *)
Theorem evaluate_conditional_spec (node : NodeDefinition) (rs : RunState) :
  let key := cfg_get (config node) "key" in
  let op := cfg_get_default (config node) "op" (AStr "==") in
  let target := cfg_get (config node) "value" in
  let on_true := cfg_get (config node) "on_true" in
  let on_false := cfg_get (config node) "on_false" in
  let passed := _compare (state_get (state rs) key) op target in
  (key = ANone →
     _evaluate_conditional node rs =
       Raise (Exn ValueError ("Conditional node '" +:+ name node +:+ "' is missing 'key'"))) ∧
  (key ≠ ANone →
     (∀ e, passed = Raise e → _evaluate_conditional node rs = Raise e) ∧
     (passed = Ok true → _evaluate_conditional node rs = Ok on_true) ∧
     (passed = Ok true → config node !! "on_true" = None →
        _evaluate_conditional node rs = Ok ANone) ∧
     (passed = Ok false → truthy on_false = true →
        _evaluate_conditional node rs = Ok on_false) ∧
     (passed = Ok false → truthy on_false = false →
        _evaluate_conditional node rs = Ok (of_optional (next node)))) ∧
  (∀ (tools : gmap string Tool) (w : World), type node = conditional →
     _execute_node tools node w = (_evaluate_conditional node (run_state w), w)).
Proof.
  intros key op target on_true on_false passed. split_and!.
  - intros Hk. unfold _evaluate_conditional. fold key. by rewrite Hk.
  - intros Hk.
    assert (Hguard : is_none key = false) by (destruct key; simpl; congruence).
    unfold _evaluate_conditional. fold key op target on_true on_false.
    rewrite Hguard. fold passed. split_and!.
    + by intros e ->.
    + by intros ->.
    + intros -> Hmissing. unfold on_true, cfg_get. by rewrite Hmissing.
    + intros -> Ht. unfold py_or. by rewrite Ht.
    + intros -> Ht. unfold py_or. by rewrite Ht.
  - intros tools w Hty. unfold _execute_node. by rewrite Hty.
Qed.

Lemma evaluate_conditional_spec_witness :
  let node := {| name := "B"; type := conditional; next := Some "C";
                 config := <["key" := AStr "x"]> (<["op" := AStr ">="]>
                           {["value" := AInt 10]}) |} in
  let rs := new_run "r" doubling_graph {["x" := VAtom (AInt 12)]} in
  _evaluate_conditional node rs = Ok ANone.
Proof.
  intros node rs.
  destruct (evaluate_conditional_spec node rs) as (_ & H & _).
  destruct H as (_ & _ & H & _); [vm_compute; congruence|].
  apply H; vm_compute; reflexivity.
Defined.

(** ** The tool node ([_execute_node], [_invoke_tool]) *)

(** X6: A tool node with no usable [tool] entry (missing, null or empty), and
    a tool node naming a tool that is not registered, raise their
    [ValueError] before anything is called: the world is left exactly as
    it was. *)
Theorem tool_node_errors_change_nothing (tools : gmap string Tool)
    (node : NodeDefinition) (w : World) :
  type node = tool →
  let tool_name := cfg_get (config node) "tool" in
  (truthy tool_name = false →
     _execute_node tools node w =
       (Raise (Exn ValueError
          ("Tool node '" +:+ name node +:+ "' is missing 'tool' in config")), w)) ∧
  (truthy tool_name = true → registry_get tools tool_name = None →
     _execute_node tools node w =
       (Raise (Exn ValueError
          ("Tool '" +:+ py_str tool_name +:+ "' is not registered")), w)).
Proof.
  intros Hty tool_name. unfold _execute_node. rewrite Hty. fold tool_name. split.
  - by intros ->.
  - intros -> Hreg. unfold mbind, M_bind, _invoke_tool. by rewrite Hreg.
Qed.

Lemma tool_node_errors_change_nothing_witness :
  let node := {| name := "A"; type := tool; next := None; config := ∅ |} in
  _execute_node doubling_tools node push_world =
    (Raise (Exn ValueError "Tool node 'A' is missing 'tool' in config"), push_world).
Proof.
  intros node.
  apply (proj1 (tool_node_errors_change_nothing doubling_tools node push_world eq_refl)).
  reflexivity.
Defined.

(** X7: A tool node whose tool is registered calls it on the state and the
    heap of the run.  If the tool raises, the exception is passed on and
    the state stays as the tool left it.  If it returns, the successor is
    [next], every key of the returned dictionary is bound to the returned
    value, every other key is as the tool left it (a [None] or empty
    return changes nothing more), and the loop counters, the log and the
    status are untouched. *)
Theorem tool_result_is_merged (tools : gmap string Tool) (node : NodeDefinition)
    (w : World) (fn : Tool) :
  type node = tool →
  truthy (cfg_get (config node) "tool") = true →
  registry_get tools (cfg_get (config node) "tool") = Some fn →
  let out := fn (state (run_state w)) (heap w) in
  (∀ exc, tool_return out = Raise exc →
     ∃ w', _execute_node tools node w = (Raise exc, w') ∧
           state (run_state w') = tool_state out ∧ heap w' = tool_heap out) ∧
  (∀ r, tool_return out = Ok r →
     ∃ w', _execute_node tools node w = (Ok (of_optional (next node)), w') ∧
           heap w' = tool_heap out ∧
           (∀ k v, default ∅ r !! k = Some v → state (run_state w') !! k = Some v) ∧
           (∀ k, default ∅ r !! k = None →
              state (run_state w') !! k = tool_state out !! k) ∧
           loop_counts (run_state w') = loop_counts (run_state w) ∧
           log (run_state w') = log (run_state w) ∧
           status (run_state w') = status (run_state w)).
Proof.
  intros Hty Ht Hreg out. unfold _execute_node. rewrite Hty, Ht.
  unfold mbind, M_bind, _invoke_tool. rewrite Hreg. fold out. split.
  - intros exc ->. by eexists.
  - intros r ->. cbv zeta. case_decide as Hempty.
    + eexists. split; [reflexivity|]. simpl. split_and!; try done.
      intros k v. by rewrite Hempty, lookup_empty.
    + eexists. split; [reflexivity|]. simpl. split_and!; try done.
      * intros k v Hk. by apply lookup_union_Some_l.
      * intros k Hk. by rewrite lookup_union_r.
Qed.

Lemma tool_result_is_merged_witness :
  let node := {| name := "A"; type := tool; next := Some "B";
                 config := {["tool" := AStr "double"]} |} in
  let w := new_world "r" doubling_graph
             (<["x" := VAtom (AInt 3)]> {["y" := VAtom (AStr "kept")]}) ∅ in
  ∃ w', _execute_node doubling_tools node w = (Ok (AStr "B"), w') ∧
        state (run_state w') !! "x" = Some (VAtom (AInt 6)) ∧
        state (run_state w') !! "y" = Some (VAtom (AStr "kept")).
Proof.
  intros node w.
  destruct (tool_result_is_merged doubling_tools node w double eq_refl eq_refl eq_refl)
    as [_ H].
  assert (Hret : tool_return (double (state (run_state w)) (heap w)) =
                 Ok (Some ({["x" := VAtom (AInt 6)]} : gmap string value)))
    by (vm_compute; reflexivity).
  destruct (H _ Hret) as (w' & Hrun & _ & Hnew & Hold & _).
  exists w'. split; [exact Hrun|]. split.
  - apply Hnew. vm_compute. reflexivity.
  - rewrite Hold; vm_compute; reflexivity.
Defined.

(** X8: Dispatching a node never touches the identifier, the status, the
    current node, the log, the subscribers or the events of the run.  A
    loop node changes nothing but its own counter; a tool node never
    changes a loop counter. *)
Theorem dispatch_touches_only_its_own (tools : gmap string Tool)
    (node : NodeDefinition) (w : World) (r : result atom) (w' : World) :
  _execute_node tools node w = (r, w') →
  (run_id (run_state w') = run_id (run_state w) ∧
   status (run_state w') = status (run_state w) ∧
   current_node (run_state w') = current_node (run_state w) ∧
   log (run_state w') = log (run_state w) ∧
   subscribers (run_state w') = subscribers (run_state w) ∧
   published w' = published w) ∧
  (type node = loop →
     state (run_state w') = state (run_state w) ∧ heap w' = heap w ∧
     ∀ n, n ≠ name node →
       loop_counts (run_state w') !! n = loop_counts (run_state w) !! n) ∧
  (type node = tool → loop_counts (run_state w') = loop_counts (run_state w)).
Proof.
  intros E. split; [exact (execute_node_untouched _ _ _ _ _ E)|]. split.
  - intros Hty. unfold _execute_node in E. rewrite Hty in E. munfold.
    destruct (_evaluate_loop node (run_state w)) as [r1 rs1] eqn:El.
    apply evaluate_loop_fields in El as [-> | (c & -> & _)].
    + assert (w' = {| run_state := run_state w; heap := heap w;
                      published := published w |}) as ->
        by (destruct r1; by injection E as _ <-).
      done.
    + assert (w' = {| run_state := with_loop_counts
                        (<[name node := c]> (loop_counts (run_state w))) (run_state w);
                      heap := heap w; published := published w |}) as ->
        by (destruct r1; by injection E as _ <-).
      simpl. split_and!; try done. intros n Hn. by rewrite lookup_insert_ne.
  - intros Hty. unfold _execute_node in E. rewrite Hty in E.
    destruct (truthy _); [|by injection E as _ <-].
    unfold mbind, M_bind in E.
    destruct (_invoke_tool _ _ _) as [[[]|exc] w1] eqn:Ei;
      apply invoke_tool_untouched in Ei as [_ Ei]; by injection E as _ <-.
Qed.

Lemma dispatch_touches_only_its_own_witness :
  let node := {| name := "A"; type := tool; next := Some "B";
                 config := {["tool" := AStr "double"]} |} in
  let w := world (doubling_run 0) in
  let w' := snd (_execute_node doubling_tools node w) in
  log (run_state w') = log (run_state w) ∧
  loop_counts (run_state w') = loop_counts (run_state w).
Proof.
  intros node w w'.
  destruct (dispatch_touches_only_its_own doubling_tools node w
              (fst (_execute_node doubling_tools node w)) w'
              ltac:(by destruct (_execute_node doubling_tools node w)))
    as ((_ & _ & _ & Hlog & _) & _ & Htool).
  split; [exact Hlog | exact (Htool eq_refl)].
Defined.

(** ** Comparison of operands of different kinds ([_compare]) *)

Lemma compare_ordering (o : ord_op) (v : value) (t : atom) :
  _compare v (AStr (ord_op_str o)) t = guarded_ord o v t.
Proof. by destruct o. Qed.

(** X9: For a state value and a scalar target (the configured [value] being
    [None], a boolean, a number or a string), neither of them [None]: an
    ordering operator gives a boolean exactly for comparable operands (two
    numbers, or two strings) and raises a [TypeError] for any other pair,
    a list value against a scalar included; [==] on such a pair is [False]
    and [!=] is [True]. *)
Theorem ordering_needs_comparable_operands (o : ord_op) (v : value) (t : atom) :
  is_none v = false → is_none t = false →
  (comparable v t = true →
     ∃ b, _compare v (AStr (ord_op_str o)) t = Ok b) ∧
  (comparable v t = false →
     _compare v (AStr (ord_op_str o)) t =
       Raise (Exn TypeError
         ("'" +:+ ord_op_str o +:+ "' not supported between instances of '"
          +:+ type_name v +:+ "' and '" +:+ type_name t +:+ "'")) ∧
     _compare v (AStr "==") t = Ok false ∧
     _compare v (AStr "!=") t = Ok true).
Proof.
  intros Hv Ht. rewrite compare_ordering. unfold guarded_ord. rewrite Hv, Ht.
  split.
  - destruct v as [a|l]; [|discriminate]. unfold py_ord, comparable.
    destruct (as_int a), (as_int t); try (by eexists);
      destruct a, t; try discriminate; by eexists.
  - intros Hc. destruct v as [a|l].
    + unfold py_ord, comparable in *. unfold _compare. simpl.
      destruct a, t; simpl in *; try discriminate; done.
    + done.
Qed.

Lemma ordering_needs_comparable_operands_witness :
  _compare (AStr "12") (AStr ">") (AInt 5) =
    Raise (Exn TypeError "'>' not supported between instances of 'str' and 'int'").
Proof.
  apply (proj2 (ordering_needs_comparable_operands OpGt (AStr "12") (AInt 5)
                  eq_refl eq_refl)).
  reflexivity.
Defined.

Lemma compare_ordering_int (o : ord_op) (a t : atom) (x y : Z) :
  as_int a = Some x → as_int t = Some y →
  _compare a (AStr (ord_op_str o)) t = Ok (ord_Z o x y).
Proof.
  intros Ha Ht. rewrite compare_ordering. unfold guarded_ord.
  assert (is_none a = false) as -> by (destruct a; simpl in *; congruence).
  assert (is_none t = false) as -> by (destruct t; simpl in *; congruence).
  unfold py_ord. by rewrite Ha, Ht.
Qed.

(** X10: On numbers (integers, and booleans counted as 0 and 1) the six
    operators decide the six relations of the integers. *)
Theorem compare_decides_integer_order (a t : atom) (x y : Z) :
  as_int a = Some x → as_int t = Some y →
  _compare a (AStr "==") t = Ok (bool_decide (x = y)) ∧
  _compare a (AStr "!=") t = Ok (bool_decide (x ≠ y)) ∧
  _compare a (AStr ">") t = Ok (bool_decide (y < x)) ∧
  _compare a (AStr ">=") t = Ok (bool_decide (y ≤ x)) ∧
  _compare a (AStr "<") t = Ok (bool_decide (x < y)) ∧
  _compare a (AStr "<=") t = Ok (bool_decide (x ≤ y)).
Proof.
  intros Ha Ht.
  assert (Heq : py_eq a t = bool_decide (x = y)).
  { unfold py_eq. rewrite Ha, Ht.
    destruct (Z.eqb_spec x y);
      [by rewrite bool_decide_eq_true_2 | by rewrite bool_decide_eq_false_2]. }
  split_and!.
  - change (_compare a (AStr "==") t) with (Ok (A:=bool) (py_eq a t)). by rewrite Heq.
  - change (_compare a (AStr "!=") t) with (Ok (A:=bool) (negb (py_eq a t))).
    rewrite Heq. f_equal. by rewrite bool_decide_not.
  - change (AStr ">") with (AStr (ord_op_str OpGt)).
    rewrite (compare_ordering_int OpGt a t x y Ha Ht). f_equal. simpl.
    destruct (Z.ltb_spec y x);
      [rewrite bool_decide_eq_true_2 | rewrite bool_decide_eq_false_2]; lia || done.
  - change (AStr ">=") with (AStr (ord_op_str OpGe)).
    rewrite (compare_ordering_int OpGe a t x y Ha Ht). f_equal. simpl.
    destruct (Z.leb_spec y x);
      [rewrite bool_decide_eq_true_2 | rewrite bool_decide_eq_false_2]; lia || done.
  - change (AStr "<") with (AStr (ord_op_str OpLt)).
    rewrite (compare_ordering_int OpLt a t x y Ha Ht). f_equal. simpl.
    destruct (Z.ltb_spec x y);
      [rewrite bool_decide_eq_true_2 | rewrite bool_decide_eq_false_2]; lia || done.
  - change (AStr "<=") with (AStr (ord_op_str OpLe)).
    rewrite (compare_ordering_int OpLe a t x y Ha Ht). f_equal. simpl.
    destruct (Z.leb_spec x y);
      [rewrite bool_decide_eq_true_2 | rewrite bool_decide_eq_false_2]; lia || done.
Qed.

Lemma compare_decides_integer_order_witness :
  _compare (ABool true) (AStr "<") (AInt 2) = Ok true.
Proof.
  destruct (compare_decides_integer_order (ABool true) (AInt 2) 1 2 eq_refl eq_refl)
    as (_ & _ & _ & _ & H & _).
  exact H.
Defined.

(** ** Bounded queues and what a subscriber receives *)

Lemma offer_maxsize (m : message) (q : Queue) : maxsize (offer m q) = maxsize q.
Proof. rewrite offer_spec. by destruct (full q). Qed.

Lemma deliver_maxsize (evs : list message) (q : Queue) :
  maxsize (deliver evs q) = maxsize q.
Proof.
  revert q. induction evs as [|m evs IH]; intros q; [done|].
  simpl. change (foldl _ (offer m q) evs) with (deliver evs (offer m q)).
  by rewrite IH, offer_maxsize.
Qed.

(** What a bounded queue holds after a sequence of offers. *)
Lemma deliver_items (evs : list message) (q : Queue) :
  0 < maxsize q → Z.of_nat (length (items q)) ≤ maxsize q →
  items (deliver evs q) = take (Z.to_nat (maxsize q)) (items q ++ evs).
Proof.
  revert q. induction evs as [|m evs IH]; intros q Hpos Hlen.
  - simpl. rewrite app_nil_r, take_ge; [done | lia].
  - simpl. change (foldl _ (offer m q) evs) with (deliver evs (offer m q)).
    rewrite offer_spec. unfold full.
    destruct (maxsize q <=? 0) eqn:E0; [lia|].
    destruct (maxsize q <=? Z.of_nat (length (items q))) eqn:E.
    + rewrite (IH q Hpos Hlen).
      rewrite !take_app_le by lia. done.
    + rewrite IH; simpl; [|done|rewrite length_app; simpl; lia].
      by rewrite <- app_assoc.
Qed.

Lemma deliver_unbounded (evs : list message) (q : Queue) :
  maxsize q ≤ 0 → items (deliver evs q) = items q ++ evs.
Proof.
  revert q. induction evs as [|m evs IH]; intros q Hmax.
  - simpl. by rewrite app_nil_r.
  - simpl. change (foldl _ (offer m q) evs) with (deliver evs (offer m q)).
    rewrite IH by (by rewrite offer_maxsize).
    rewrite offer_spec. unfold full.
    destruct (maxsize q <=? 0) eqn:E0; [|lia]. simpl. by rewrite <- app_assoc.
Qed.

(** X11: A queue with a positive capacity that nobody reads from keeps, of the
    events offered to it, the first ones up to its capacity and silently
    loses every later one: it never holds more than [maxsize] items.  A
    queue with [maxsize <= 0] keeps everything.  The queue [subscribe]
    creates is empty with capacity 100 and is added after the subscribers
    already there, so it holds the first 100 events published after the
    subscription. *)
Theorem unread_queue_keeps_first_events (evs : list message) (q : Queue) :
  maxsize (deliver evs q) = maxsize q ∧
  (0 < maxsize q → Z.of_nat (length (items q)) ≤ maxsize q →
     items (deliver evs q) = take (Z.to_nat (maxsize q)) (items q ++ evs) ∧
     Z.of_nat (length (items (deliver evs q))) ≤ maxsize q) ∧
  (maxsize q ≤ 0 → items (deliver evs q) = items q ++ evs) ∧
  (∀ rs : RunState,
     ∃ fresh, subscribers (subscribe rs) = subscribers rs ++ [fresh] ∧
       maxsize fresh = 100 ∧ items fresh = [] ∧
       items (deliver evs fresh) = take 100 evs).
Proof.
  split_and!.
  - apply deliver_maxsize.
  - intros Hpos Hlen. rewrite (deliver_items evs q Hpos Hlen). split; [done|].
    rewrite length_take. lia.
  - apply deliver_unbounded.
  - intros rs. eexists. split; [reflexivity|]. split; [done|]. split; [done|].
    rewrite deliver_items; simpl; [done | lia | lia].
Qed.

Lemma unread_queue_keeps_first_events_witness :
  let q := {| maxsize := 2; items := [run_started "r"] |} in
  items (deliver [node_start (AStr "A"); node_end "A"; run_completed "r"] q) =
    [run_started "r"; node_start (AStr "A")].
Proof.
  intros q.
  destruct (unread_queue_keeps_first_events
              [node_start (AStr "A"); node_end "A"; run_completed "r"] q)
    as (_ & H & _).
  destruct H as [H _]; [reflexivity | simpl; lia |]. exact H.
Defined.

(** ** The cases of a turn *)

Lemma truthy_str (s : string) : truthy (AStr s) = true ↔ s ≠ "".
Proof.
  simpl. rewrite negb_true_iff. split.
  - intros H. by apply String.eqb_neq.
  - intros H. by apply String.eqb_neq.
Qed.

(** Everything a turn can be, with the machine it leads to. *)
Lemma step_cases (g : GraphDefinition) (tools : gmap string Tool) (m : Machine) :
  ((∀ current, control m ≠ Running current) ∧ step g tools m = m) ∨
  (∃ current, control m = Running current ∧ truthy current = false ∧
     step g tools m = {| control := Returned; world := finished (world m) |}) ∨
  (∃ s node successor w2,
     control m = Running (AStr s) ∧ s ≠ "" ∧ node_lookup g !! s = Some node ∧
     _execute_node tools node (announced s (world m)) = (Ok successor, w2) ∧
     step g tools m = {| control := Running successor; world := concluded node w2 |}) ∨
  (∃ s node exc w2,
     control m = Running (AStr s) ∧ s ≠ "" ∧ node_lookup g !! s = Some node ∧
     _execute_node tools node (announced s (world m)) = (Raise exc, w2) ∧
     step g tools m = {| control := Raised exc; world := failed_at s exc w2 |}) ∨
  (∃ s, control m = Running (AStr s) ∧ s ≠ "" ∧ node_lookup g !! s = None ∧
     step g tools m =
       {| control := Raised (Exn KeyError ("'" +:+ s +:+ "'"));
          world := failed_at s (Exn KeyError ("'" +:+ s +:+ "'"))
                     (announced s (world m)) |}) ∨
  (∃ current, control m = Running current ∧ truthy current = true ∧
     (∀ s, current ≠ AStr s) ∧
     step g tools m =
       {| control := Raised (Exn PydanticError "node: Input should be a valid string");
          world := {| run_state :=
                        with_status failed
                          (with_current_node current (run_state (world m)));
                      heap := heap (world m); published := published (world m) |} |}).
Proof.
  destruct m as [[current| |exc0] w]; [|by left|by left].
  right. unfold step. cbn [control world]. destruct (truthy current) eqn:Ht.
  - right. destruct (atom_str_dec current) as [[s ->] | Hns].
    + assert (Hs : s ≠ "") by (by apply truthy_str).
      destruct (node_lookup g !! s) as [node|] eqn:Hn.
      * rewrite (visit_resolved g tools s node w Hn).
        destruct (_execute_node tools node (announced s w)) as [[successor|exc] w2] eqn:E.
        -- left. by exists s, node, successor, w2.
        -- right. left. rewrite (on_exception_str s exc w2 Ht).
           by exists s, node, exc, w2.
      * right. right. left.
        rewrite (visit_unresolved g tools s w Hn), (on_exception_str _ _ _ Ht).
        by exists s.
    + right. right. right.
      rewrite (visit_not_str g tools current w Hns).
      rewrite (on_exception_not_str current _ _ Ht Hns).
      by exists current.
  - left. rewrite finish_world. by exists current.
Qed.

(** ** Subscribers over a whole run *)

Lemma deliver_nil_fmap (qs : list Queue) : deliver [] <$> qs = qs.
Proof. by rewrite <- (list_fmap_id qs) at 2. Qed.

Lemma deliver_app_fmap (a b : list message) (qs : list Queue) :
  deliver (a ++ b) <$> qs = deliver b <$> (deliver a <$> qs).
Proof.
  rewrite <- list_fmap_compose. apply list_fmap_ext. intros i q _.
  simpl. unfold deliver. by rewrite foldl_app.
Qed.

Lemma deliver_two_fmap (a b : message) (qs : list Queue) :
  notify_queues (notify_queues qs a) b = deliver [a; b] <$> qs.
Proof.
  unfold notify_queues. rewrite <- list_fmap_compose.
  by apply list_fmap_ext.
Qed.

Lemma step_delivers (g : GraphDefinition) (tools : gmap string Tool) (m : Machine) :
  ∃ evs,
    published (world (step g tools m)) = published (world m) ++ evs ∧
    subscribers (run_state (world (step g tools m))) =
      deliver evs <$> subscribers (run_state (world m)).
Proof.
  destruct (step_cases g tools m) as
    [[_ ->] | [(c & _ & _ & ->) | [(s & node & succ & w2 & _ & _ & _ & E & ->)
     | [(s & node & exc & w2 & _ & _ & _ & E & ->) | [(s & _ & _ & _ & ->)
     | (c & _ & _ & _ & ->)]]]]].
  - exists []. by rewrite app_nil_r, deliver_nil_fmap.
  - by eexists [_].
  - pose proof (execute_node_untouched _ _ _ _ _ E) as (_ & _ & _ & _ & U5 & U6).
    exists [node_start (AStr s); node_end (name node)]. simpl in *.
    rewrite U5, U6, <- app_assoc. split; [done|].
    apply deliver_two_fmap.
  - pose proof (execute_node_untouched _ _ _ _ _ E) as (_ & _ & _ & _ & U5 & U6).
    exists [node_start (AStr s); run_failed (run_id (run_state w2)) (exn_msg exc)].
    simpl in *. rewrite U5, U6, <- app_assoc. split; [done|].
    apply deliver_two_fmap.
  - exists [node_start (AStr s);
            run_failed (run_id (run_state (world m))) ("'" +:+ s +:+ "'")].
    simpl. rewrite <- app_assoc. split; [done|].
    apply deliver_two_fmap.
  - exists []. simpl. by rewrite app_nil_r, deliver_nil_fmap.
Qed.

(** X12: Provided no subscriber is added, removed or read from while the run
    goes on, every queue registered when the run starts has been offered,
    in order, exactly the events the run has published so far: the
    subscribers at any point of the run are the initial ones after the
    delivery of those events.  In particular a queue that was empty with
    capacity 100 holds the first 100 of them. *)
Theorem subscribers_are_offered_every_event (g : GraphDefinition)
    (tools : gmap string Tool) (w : World) (fuel : nat) :
  let m := _execute g tools fuel w in
  ∃ evs,
    published (world m) = published w ++ evs ∧
    subscribers (run_state (world m)) = deliver evs <$> subscribers (run_state w) ∧
    (∀ i, subscribers (run_state w) !! i = Some {| maxsize := 100; items := [] |} →
       subscribers (run_state (world m)) !! i =
         Some {| maxsize := 100; items := take 100 evs |}).
Proof.
  intros m.
  assert (H : ∃ evs, published (world m) = published w ++ evs ∧
    subscribers (run_state (world m)) = deliver evs <$> subscribers (run_state w)).
  { unfold m, _execute. induction fuel as [|k IH]; simpl.
    - by exists [run_started (run_id (run_state w))].
    - destruct IH as (evs & Hp & Hs).
      destruct (step_delivers g tools (Nat.iter k (step g tools) (begin g w)))
        as (evs' & Hp' & Hs').
      exists (evs ++ evs'). rewrite Hp', Hs', Hp, Hs.
      by rewrite app_assoc, deliver_app_fmap. }
  destruct H as (evs & Hp & Hs). exists evs. split; [done|]. split; [done|].
  intros i Hi. rewrite Hs, list_lookup_fmap, Hi. simpl. f_equal.
  pose proof (deliver_maxsize evs {| maxsize := 100; items := [] |}) as Hmax.
  pose proof (deliver_items evs {| maxsize := 100; items := [] |}
                ltac:(simpl; lia) ltac:(simpl; lia)) as Hitems.
  destruct (deliver evs _) as [mx its]. simpl in *. by subst.
Qed.

Lemma subscribers_are_offered_every_event_witness :
  let w := {| run_state := subscribe (new_run "run-1" doubling_graph {["x" := VAtom (AInt 3)]});
              heap := ∅; published := [] |} in
  let m := _execute doubling_graph doubling_tools 5 w in
  items <$> subscribers (run_state (world m)) =
    [ run_started "run-1" :: visit_events ["A"; "B"; "A"; "B"] ++ [run_completed "run-1"] ].
Proof.
  intros w m.
  destruct (subscribers_are_offered_every_event doubling_graph doubling_tools w 5)
    as (evs & Hp & Hs & _).
  fold m in Hp, Hs. rewrite Hs.
  assert (evs = run_started "run-1" :: visit_events ["A"; "B"; "A"; "B"]
                  ++ [run_completed "run-1"]) as ->.
  { change (published w ++ evs) with evs in Hp. rewrite <- Hp. vm_compute. reflexivity. }
  vm_compute. reflexivity.
Defined.

(** ** How a run ends, on any graph *)



(** ** The tool registry *)

(** X13: [register] then [get] gives the function back, a later registration
    under the same name replaces the earlier one, other names are not
    affected, and a name that is not a string is never found.  [invoke] of
    a name that is not registered raises "Tool '<name>' is not registered"
    and leaves state and heap alone; [invoke] of a registered tool returns
    what the tool returned with [None] replaced by the empty dictionary.
    [_invoke_tool] is [invoke] followed by the merge of the returned
    dictionary into the state. *)
Theorem tool_registry_round_trip (tools : gmap string Tool) (tool_name : string)
    (fn : Tool) :
  registry_get (register tools tool_name fn) (AStr tool_name) = Some fn ∧
  (∀ fn', register (register tools tool_name fn') tool_name fn
          = register tools tool_name fn) ∧
  (∀ other, other ≠ tool_name →
     registry_get (register tools tool_name fn) (AStr other)
       = registry_get tools (AStr other)) ∧
  (∀ a, (∀ s, a ≠ AStr s) → registry_get tools a = None) ∧
  (∀ a st h, registry_get tools a = None →
     invoke tools a st h =
       (st, h, Raise (Exn ValueError ("Tool '" +:+ py_str a +:+ "' is not registered")))) ∧
  (∀ st h,
     ∃ st' h', invoke (register tools tool_name fn) (AStr tool_name) st h =
       (st', h', match tool_return (fn st h) with
                 | Ok r => Ok (default ∅ r)
                 | Raise e => Raise e
                 end) ∧
       st' = tool_state (fn st h) ∧ h' = tool_heap (fn st h)) ∧
  (∀ a w,
     _invoke_tool tools a w =
       match invoke tools a (state (run_state w)) (heap w) with
       | (st', h', Raise e) =>
           (Raise e, {| run_state := with_state st' (run_state w); heap := h';
                        published := published w |})
       | (st', h', Ok result) =>
           (Ok (), {| run_state := with_state (result ∪ st') (run_state w); heap := h';
                      published := published w |})
       end).
Proof.
  split_and!.
  - simpl. apply lookup_insert_eq.
  - intros fn'. unfold register. apply insert_insert_eq.
  - intros other Hne. simpl. unfold register. by rewrite lookup_insert_ne.
  - intros a Ha. destruct a; try done. by destruct (Ha s).
  - intros a st h Hnone. unfold invoke. by rewrite Hnone.
  - intros st h. unfold invoke. simpl. unfold register. rewrite lookup_insert_eq.
    by eexists _, _.
  - intros a w. unfold _invoke_tool, invoke.
    destruct (registry_get tools a) as [f|].
    + destruct (tool_return _) as [r|e]; [|done].
      cbv zeta. case_decide as Hempty; [|done].
      rewrite Hempty, (left_id_L ∅ (∪)). done.
    + by destruct w as [[] ? ?].
Qed.

Lemma tool_registry_round_trip_witness :
  registry_get doubling_tools (AStr "triple") = None ∧
  invoke doubling_tools (AStr "triple") ∅ ∅ =
    (∅, ∅, Raise (Exn ValueError "Tool 'triple' is not registered")).
Proof.
  assert (H : registry_get doubling_tools (AStr "triple") = None)
    by (vm_compute; reflexivity).
  split; [exact H|].
  destruct (tool_registry_round_trip doubling_tools "double" double)
    as (_ & _ & _ & _ & Hinv & _).
  exact (Hinv (AStr "triple") ∅ ∅ H).
Defined.

(** ** The engine's registries *)


Section EngineProperties.

Variable py_repr : string → string.

(** X14: [get_graph] after [register_graph] gives the graph back; registering
    again under the same identifier replaces the definition; other
    identifiers, the tools and the runs are not affected; an identifier
    never registered raises a [KeyError]. *)
Theorem graph_registry_round_trip (e : Engine.WorkflowEngine) (g : GraphDefinition) :
  Engine.get_graph py_repr (Engine.register_graph e g) (graph_id g) = Ok g ∧
  (∀ g', graph_id g' = graph_id g →
     Engine.get_graph py_repr
       (Engine.register_graph (Engine.register_graph e g') g) (graph_id g) = Ok g) ∧
  (∀ gid, gid ≠ graph_id g →
     Engine.get_graph py_repr (Engine.register_graph e g) gid
       = Engine.get_graph py_repr e gid) ∧
  Engine.tools (Engine.register_graph e g) = Engine.tools e ∧
  Engine._runs (Engine.register_graph e g) = Engine._runs e ∧
  (∀ gid, Engine.graphs e !! gid = None →
     Engine.get_graph py_repr e gid =
       Raise (Exn KeyError (py_repr ("Unknown graph_id '" +:+ gid +:+ "'")))) ∧
  (∀ gid, Engine.get_graph py_repr Engine.empty gid =
     Raise (Exn KeyError (py_repr ("Unknown graph_id '" +:+ gid +:+ "'")))).
Proof.
  unfold Engine.get_graph, Engine.register_graph. simpl. split_and!; try done.
  - by rewrite lookup_insert_eq.
  - intros g' _. by rewrite lookup_insert_eq.
  - intros gid Hne. by rewrite lookup_insert_ne.
  - by intros gid ->.
Qed.


End EngineProperties.

Lemma graph_registry_round_trip_witness :
  Engine.get_graph (λ s, s) (Engine.register_graph Engine.empty doubling_graph) "other" =
    Raise (Exn KeyError "Unknown graph_id 'other'").
Proof.
  destruct (graph_registry_round_trip (λ s, s) Engine.empty doubling_graph)
    as (_ & _ & Hother & _ & _ & _ & Hempty).
  rewrite (Hother "other") by discriminate. apply Hempty.
Defined.


(** ** A loop node that is its own body *)

(** The guard of [_evaluate_loop] below the cap. *)
Lemma evaluate_loop_below_cap (node : NodeDefinition) (rs : RunState) (m : Z) :
  cfg_get (config node) "key" ≠ ANone →
  cfg_get (config node) "body" ≠ ANone →
  _compare (state_get (state rs) (cfg_get (config node) "key"))
    (cfg_get_default (config node) "op" (AStr "==")) (cfg_get (config node) "value")
    = Ok true →
  as_int (cfg_get_default (config node) "max_iterations" (AInt 25)) = Some m →
  default 0 (loop_counts rs !! name node) < m →
  _evaluate_loop node rs =
    (Ok (cfg_get (config node) "body"),
     with_loop_counts
       (<[name node := default 0 (loop_counts rs !! name node) + 1]> (loop_counts rs)) rs).
Proof.
  intros Hk Hb Hc Hm Hlt. unfold _evaluate_loop.
  assert (is_none (cfg_get (config node) "key") || is_none (cfg_get (config node) "body")
          = false) as ->.
  { destruct (cfg_get (config node) "key"), (cfg_get (config node) "body");
      simpl; congruence. }
  rewrite Hc. unfold py_ord. simpl. rewrite Hm. simpl.
  destruct (m <=? _) eqn:E; [lia | done].
Qed.

Section SelfLoop.

Variable g : GraphDefinition.
Variable tools : gmap string Tool.
Variable s : string.
Variable node : NodeDefinition.
Variable cap : Z.

Hypothesis Hs : s ≠ "".
Hypothesis Hn : node_lookup g !! s = Some node.
Hypothesis Hty : type node = loop.
Hypothesis Hk : cfg_get (config node) "key" ≠ ANone.
Hypothesis Hbody : cfg_get (config node) "body" = AStr s.
Hypothesis Hcap :
  as_int (cfg_get_default (config node) "max_iterations" (AInt 25)) = Some cap.

Lemma self_loop_turn (w : World) :
  loop_condition node (state (run_state w)) →
  ∃ w',
    step g tools {| control := Running (AStr s); world := w |} =
      {| control :=
           Running (if cap <=? default 0 (loop_counts (run_state w) !! s)
                    then cfg_get (config node) "after" else AStr s);
         world := w' |} ∧
    state (run_state w') = state (run_state w) ∧
    default 0 (loop_counts (run_state w') !! s) =
      (if cap <=? default 0 (loop_counts (run_state w) !! s)
       then default 0 (loop_counts (run_state w) !! s)
       else default 0 (loop_counts (run_state w) !! s) + 1) ∧
    length (log (run_state w')) = (length (log (run_state w)) + 2)%nat.
Proof.
  intros Hholds.
  destruct (node_lookup_Some g s node Hn) as [_ Hname].
  assert (Hb : cfg_get (config node) "body" ≠ ANone) by (by rewrite Hbody).
  unfold step. cbn [control world].
  rewrite (proj2 (truthy_str s) Hs), (visit_resolved g tools s node w Hn).
  unfold _execute_node. rewrite Hty. munfold.
  destruct (cap <=? default 0 (loop_counts (run_state w) !! s)) eqn:E.
  - rewrite (evaluate_loop_capped node (run_state (announced s w)) cap Hk Hb Hholds Hcap)
      by (simpl; rewrite Hname; lia).
    eexists. split; [reflexivity|]. simpl. rewrite !length_app. simpl.
    split_and!; [done | done | lia].
  - rewrite (evaluate_loop_below_cap node (run_state (announced s w)) cap Hk Hb Hholds Hcap)
      by (simpl; rewrite Hname; lia).
    rewrite Hbody. eexists. split; [reflexivity|]. simpl.
    rewrite Hname, lookup_insert_eq, !length_app. simpl.
    split_and!; [done | done | lia].
Qed.

Lemma self_loop_turns (n : nat) (w : World) :
  loop_condition node (state (run_state w)) →
  Z.of_nat n = cap - default 0 (loop_counts (run_state w) !! s) →
  let m := Nat.iter (n + 1) (step g tools) {| control := Running (AStr s); world := w |} in
  control m = Running (cfg_get (config node) "after") ∧
  state (run_state (world m)) = state (run_state w) ∧
  default 0 (loop_counts (run_state (world m)) !! s) = cap ∧
  length (log (run_state (world m))) = (length (log (run_state w)) + 2 * (n + 1))%nat.
Proof.
  revert w. induction n as [|n IH]; intros w Hholds Hn'.
  - destruct (self_loop_turn w Hholds) as (w' & Hstep & Hst & Hcount & Hlog).
    simpl. rewrite Hstep. simpl.
    destruct (cap <=? _) eqn:E; [|lia].
    split_and!; [done | done | lia | lia].
  - destruct (self_loop_turn w Hholds) as (w' & Hstep & Hst & Hcount & Hlog).
    destruct (cap <=? _) eqn:E; [lia|].
    cbv zeta. rewrite Nat.add_succ_l, Nat.iter_succ_r, Hstep.
    destruct (IH w') as (H1 & H2 & H3 & H4).
    + unfold loop_condition. by rewrite Hst.
    + lia.
    + split_and!; [done | congruence | done | lia].
Qed.

(** X16: A loop node whose [body] is the node itself, entered with its
    condition true and no count stored yet, is visited [max_iterations + 1]
    times in a row and then hands over to [after]: the state is untouched,
    the stored count is [max_iterations], and each visit has logged its
    two entries.  With a cap of zero or less the very first visit exits. *)
Theorem self_loop_stops_at_the_cap (w : World) :
  loop_condition node (state (run_state w)) →
  loop_counts (run_state w) !! s = None →
  (0 ≤ cap →
     let m := Nat.iter (Z.to_nat cap + 1) (step g tools)
                {| control := Running (AStr s); world := w |} in
     control m = Running (cfg_get (config node) "after") ∧
     state (run_state (world m)) = state (run_state w) ∧
     default 0 (loop_counts (run_state (world m)) !! s) = cap ∧
     length (log (run_state (world m))) =
       (length (log (run_state w)) + 2 * (Z.to_nat cap + 1))%nat) ∧
  (cap ≤ 0 →
     let m := step g tools {| control := Running (AStr s); world := w |} in
     control m = Running (cfg_get (config node) "after") ∧
     loop_counts (run_state (world m)) !! s = None).
Proof.
  intros Hholds Hfresh. split.
  - intros Hpos. apply self_loop_turns; [done|]. rewrite Hfresh. simpl. lia.
  - intros Hneg. cbv zeta.
    destruct (node_lookup_Some g s node Hn) as [_ Hname].
    assert (Hb : cfg_get (config node) "body" ≠ ANone) by (by rewrite Hbody).
    unfold step. cbn [control world].
    rewrite (proj2 (truthy_str s) Hs), (visit_resolved g tools s node w Hn).
    unfold _execute_node. rewrite Hty. munfold.
    rewrite (evaluate_loop_capped node (run_state (announced s w)) cap Hk Hb Hholds Hcap)
      by (simpl; rewrite Hname, Hfresh; simpl; lia).
    done.
Qed.

End SelfLoop.

Lemma self_loop_stops_at_the_cap_witness :
  let node := {| name := "L"; type := loop; next := None;
                 config := <["key" := AStr "go"]> (<["value" := ABool true]>
                           (<["body" := AStr "L"]> {["max_iterations" := AInt 3]})) |} in
  let g := {| graph_id := "spin"; start_at := "L"; nodes := [node] |} in
  let w := world (begin g (new_world "r" g {["go" := VAtom (ABool true)]} ∅)) in
  let m := Nat.iter 4 (step g ∅) {| control := Running (AStr "L"); world := w |} in
  control m = Running ANone ∧
  loop_counts (run_state (world m)) !! "L" = Some 3 ∧
  length (log (run_state (world m))) = 8%nat.
Proof.
  intros node g w m.
  destruct (self_loop_stops_at_the_cap g ∅ "L" node 3) with (w := w) as [H _];
    try (vm_compute; reflexivity); try (vm_compute; congruence).
  destruct H as (H1 & _ & _ & H4); [lia|].
  split; [exact H1|]. split; [vm_compute; reflexivity | exact H4].
Defined.

(** ** A start node with the empty name *)

(** X17: [while current:] treats the empty string as no node at all: a graph
    whose [start_at] is the empty string completes at the first turn,
    whatever its nodes are, without dispatching or logging anything; the
    only events are [run_started] and [run_completed]. *)
Theorem empty_start_runs_nothing (g : GraphDefinition) (tools : gmap string Tool)
    (w : World) :
  start_at g = "" →
  let m := _execute g tools 1 w in
  control m = Returned ∧
  status (run_state (world m)) = completed ∧
  current_node (run_state (world m)) = ANone ∧
  log (run_state (world m)) = log (run_state w) ∧
  state (run_state (world m)) = state (run_state w) ∧
  loop_counts (run_state (world m)) = loop_counts (run_state w) ∧
  published (world m) =
    published w ++ [run_started (run_id (run_state w));
                    run_completed (run_id (run_state w))].
Proof.
  intros Hstart. unfold _execute. simpl. unfold step, begin. simpl.
  rewrite Hstart. simpl. by rewrite <- app_assoc.
Qed.

Lemma empty_start_runs_nothing_witness :
  let g := {| graph_id := "g"; start_at := "";
              nodes := [ {| name := ""; type := tool; next := None;
                            config := {["tool" := AStr "double"]} |} ] |} in
  validate_graph g = Ok g ∧
  control (_execute g doubling_tools 1 (new_world "r" g ∅ ∅)) = Returned ∧
  log (run_state (world (_execute g doubling_tools 1 (new_world "r" g ∅ ∅)))) = [].
Proof.
  intros g. split; [vm_compute; reflexivity|].
  destruct (empty_start_runs_nothing g doubling_tools (new_world "r" g ∅ ∅) eq_refl)
    as (H1 & _ & _ & H4 & _).
  split; [exact H1 | exact H4].
Defined.

(** ** The shipped workflow ([register_code_review_workflow]) *)

(** A conditional node that has a [key] raises nothing but what its
    comparison raises. *)
Lemma conditional_raises_from_compare (node : NodeDefinition) (rs : RunState)
    (exc : exn) :
  cfg_get (config node) "key" ≠ ANone →
  _evaluate_conditional node rs = Raise exc →
  ∃ v, _compare v (cfg_get_default (config node) "op" (AStr "=="))
         (cfg_get (config node) "value") = Raise exc.
Proof.
  intros Hk. unfold _evaluate_conditional.
  assert (is_none (cfg_get (config node) "key") = false) as ->
    by (destruct (cfg_get (config node) "key"); simpl; congruence).
  destruct (_compare _ _ _) as [b|e] eqn:E; [discriminate|].
  intros [= <-]. by eexists.
Qed.

Section CodeReview.

Variable threshold : atom.
Variables extract_functions check_complexity detect_basic_issues : Tool.
Variables suggest_improvements refine_suggestions : Tool.

Local Abbreviation g := (code_review_graph threshold).
Local Abbreviation tools :=
  (code_review_tools extract_functions check_complexity detect_basic_issues
     suggest_improvements refine_suggestions).

Lemma code_review_dispatch_raises (node : NodeDefinition) (w : World) (exc : exn)
    (w' : World) :
  node ∈ nodes g →
  _execute_node tools node w = (Raise exc, w') →
  (∃ fn st hp,
     fn ∈ [extract_functions; check_complexity; detect_basic_issues;
           suggest_improvements; refine_suggestions] ∧
     tool_return (fn st hp) = Raise exc) ∨
  (∃ v, _compare v (AStr ">=") threshold = Raise exc).
Proof.
  intros Hin. unfold code_review_graph in Hin. cbn [nodes] in Hin.
  assert (Htool : ∀ (nm : string) (nx : option string) (tn : string) (fn : Tool),
    tools !! tn = Some fn →
    fn ∈ [extract_functions; check_complexity; detect_basic_issues;
          suggest_improvements; refine_suggestions] →
    tn ≠ "" →
    _execute_node tools {| name := nm; type := tool; next := nx;
                           config := {["tool" := AStr tn]} |} w = (Raise exc, w') →
    ∃ fn st hp,
      fn ∈ [extract_functions; check_complexity; detect_basic_issues;
            suggest_improvements; refine_suggestions] ∧
      tool_return (fn st hp) = Raise exc).
  { intros nm nx tn fn Hfn Hmem Htn. unfold _execute_node. cbn [type config].
    assert (cfg_get ({["tool" := AStr tn]} : gmap string atom) "tool" = AStr tn) as ->
      by (unfold cfg_get; by rewrite lookup_singleton_eq).
    rewrite (proj2 (truthy_str tn) Htn).
    unfold mbind, M_bind, _invoke_tool. cbn [registry_get]. rewrite Hfn.
    destruct (tool_return (fn (state (run_state w)) (heap w))) as [r|e] eqn:Hr.
    - cbv zeta. case_decide; discriminate.
    - intros [= <- _]. by exists fn, (state (run_state w)), (heap w). }
  repeat (apply elem_of_cons in Hin as [-> | Hin]).
  - intros E. left.
    apply (Htool "extract" (Some "complexity") "extract_functions" extract_functions);
      [vm_compute; reflexivity
      | repeat first [apply list_elem_of_here | apply list_elem_of_further]
      | discriminate | exact E].
  - intros E. left.
    apply (Htool "complexity" (Some "detect") "check_complexity" check_complexity);
      [vm_compute; reflexivity
      | repeat first [apply list_elem_of_here | apply list_elem_of_further]
      | discriminate | exact E].
  - intros E. left.
    apply (Htool "detect" (Some "suggest") "detect_basic_issues" detect_basic_issues);
      [vm_compute; reflexivity
      | repeat first [apply list_elem_of_here | apply list_elem_of_further]
      | discriminate | exact E].
  - intros E. left.
    apply (Htool "suggest" (Some "quality_gate") "suggest_improvements" suggest_improvements);
      [vm_compute; reflexivity
      | repeat first [apply list_elem_of_here | apply list_elem_of_further]
      | discriminate | exact E].
  - intros E. right. revert E. unfold _execute_node. cbn [type]. munfold.
    destruct (_evaluate_conditional _ _) as [a|e] eqn:Ec; [discriminate|].
    intros [= <- _].
    apply conditional_raises_from_compare in Ec; [exact Ec | vm_compute; congruence].
  - intros E. left.
    apply (Htool "refine" (Some "quality_gate") "refine_suggestions" refine_suggestions);
      [vm_compute; reflexivity
      | repeat first [apply list_elem_of_here | apply list_elem_of_further]
      | discriminate | exact E].
  - by apply elem_of_nil in Hin.
Qed.

(** X18: The graph [register_code_review_workflow] registers passes validation,
    its node names are distinct, and every tool node names a tool the
    function has registered.  So a run of it fails only with an exception
    that one of the five tools raised or that the [>=] comparison of the
    quality gate raised; it never fails for a missing or unregistered tool
    or an unknown node. *)
Theorem code_review_workflow_is_wired (rid : string)
    (initial_state : gmap string value) (h : Heap) (fuel : nat) :
  validate_graph g = Ok g ∧
  NoDup (name <$> nodes g) ∧
  Forall (λ node,
            match type node with
            | tool => truthy (cfg_get (config node) "tool") = true ∧
                      is_Some (registry_get tools (cfg_get (config node) "tool"))
            | _ => True
            end) (nodes g) ∧
  (∀ exc, control (_execute g tools fuel (new_world rid g initial_state h)) = Raised exc →
     (∃ fn st hp,
        fn ∈ [extract_functions; check_complexity; detect_basic_issues;
              suggest_improvements; refine_suggestions] ∧
        tool_return (fn st hp) = Raise exc) ∨
     (∃ v, _compare v (AStr ">=") threshold = Raise exc)).
Proof.
  assert (Hv : validate_graph g = Ok g) by (vm_compute; reflexivity).
  split; [exact Hv|]. split.
  { simpl.
    repeat (apply NoDup_cons; split;
      [intros Hin; repeat (apply elem_of_cons in Hin as [Hin|Hin]; [discriminate Hin|]);
       by apply elem_of_nil in Hin|]).
    apply NoDup_nil_2. }
  split.
  { simpl. repeat (constructor; [(split; [reflexivity | by eexists]) || done|]).
    constructor. }
  unfold _execute. induction fuel as [|k IH]; intros exc; simpl; [discriminate|].
  pose proof (execute_invariant g tools rid initial_state h k Hv) as [_ Hinv].
  unfold _execute in Hinv.
  set (mk := Nat.iter k (step g tools) (begin g (new_world rid g initial_state h))) in *.
  destruct (step_cases g tools mk) as
    [[_ ->] | [(c & _ & _ & ->) | [(s & node & succ & w2 & _ & _ & _ & E & ->)
     | [(s & node & exc' & w2 & _ & _ & Hn & E & ->) | [(s & Hc & Hs & Hn & ->)
     | (c & Hc & Ht & Hns & ->)]]]]]; simpl.
  - apply IH.
  - discriminate.
  - discriminate.
  - intros [= <-]. destruct (node_lookup_Some g s node Hn) as [Hin _].
    by eapply code_review_dispatch_raises.
  - rewrite Hc in Hinv. destruct Hinv as (_ & Hres & _).
    destruct (resolvable_truthy g (AStr s) Hres (proj2 (truthy_str s) Hs))
      as (s' & node & [= <-] & Hn'). congruence.
  - rewrite Hc in Hinv. destruct Hinv as (_ & Hres & _).
    destruct (resolvable_truthy g c Hres Ht) as (s' & node & -> & _).
    by destruct (Hns s').
Qed.

End CodeReview.

Lemma code_review_workflow_is_wired_witness :
  let boom : Tool := λ st hp,
    {| tool_state := st; tool_heap := hp;
       tool_return := Raise (Exn ToolFailure "boom") |} in
  let g := code_review_graph (AInt 1) in
  let tools := code_review_tools boom double double double double in
  control (_execute g tools 1 (new_world "r" g ∅ ∅)) = Raised (Exn ToolFailure "boom") ∧
  ((∃ fn st hp, fn ∈ [boom; double; double; double; double] ∧
      tool_return (fn st hp) = Raise (Exn ToolFailure "boom")) ∨
   (∃ v, _compare v (AStr ">=") (AInt 1) = Raise (Exn ToolFailure "boom"))).
Proof.
  intros boom g tools.
  assert (H : control (_execute g tools 1 (new_world "r" g ∅ ∅))
              = Raised (Exn ToolFailure "boom")) by (vm_compute; reflexivity).
  split; [exact H|].
  destruct (code_review_workflow_is_wired (AInt 1) boom double double double double
              "r" ∅ ∅ 1) as (_ & _ & _ & Hfail).
  exact (Hfail _ H).
Defined.

(** ** Subscribing to a run *)

(** X19: [subscribe] on an unknown run raises the [KeyError] and changes
    nothing.  On a known run, whatever its status, it succeeds: a new empty
    queue of capacity 100 is added after the subscribers already there, the
    snapshot [get_run] gives is the same as before, and the other runs, the
    graphs and the tools are as before. *)
Theorem subscribe_adds_a_queue (py_repr : string → string)
    (e : Engine.WorkflowEngine) (rid : string) :
  (Engine._runs e !! rid = None →
     Engine.subscribe_run py_repr e rid = Raise (Engine.unknown_run py_repr rid)) ∧
  (∀ rs, Engine._runs e !! rid = Some rs →
     ∃ e' rs',
       Engine.subscribe_run py_repr e rid = Ok e' ∧
       Engine._runs e' !! rid = Some rs' ∧
       subscribers rs' = subscribers rs ++ [{| maxsize := 100; items := [] |}] ∧
       status rs' = status rs ∧ state rs' = state rs ∧ log rs' = log rs ∧
       loop_counts rs' = loop_counts rs ∧ current_node rs' = current_node rs ∧
       Engine.get_run py_repr e' rid = Engine.get_run py_repr e rid ∧
       (∀ rid', rid' ≠ rid → Engine._runs e' !! rid' = Engine._runs e !! rid') ∧
       Engine.graphs e' = Engine.graphs e ∧ Engine.tools e' = Engine.tools e).
Proof.
  unfold Engine.subscribe_run, Engine.get_run. split.
  - by intros ->.
  - intros rs Hrs. rewrite Hrs. exists (Engine.with_run e rid (subscribe rs)), (subscribe rs).
    simpl. rewrite lookup_insert_eq. split_and!; try done.
    intros rid' Hne. by rewrite lookup_insert_ne.
Qed.

Lemma subscribe_adds_a_queue_witness :
  let rs := with_status completed (new_run "run-1" doubling_graph ∅) in
  let e := Engine.with_run Engine.empty "run-1" rs in
  ∃ e' rs', Engine.subscribe_run (λ s, s) e "run-1" = Ok e' ∧
            Engine._runs e' !! "run-1" = Some rs' ∧
            subscribers rs' = [{| maxsize := 100; items := [] |}] ∧
            status rs' = completed.
Proof.
  intros rs e.
  destruct (subscribe_adds_a_queue (λ s, s) e "run-1") as [_ H].
  destruct (H rs ltac:(vm_compute; reflexivity))
    as (e' & rs' & H1 & H2 & H3 & H4 & _).
  by exists e', rs'.
Defined.
